(** * Rowl messaging hook: a model of [next-frontend/hooks/useMessaging.ts]

    The hook keeps a chat-summary list and the message list of the open chat
    in React state and reconciles both with a remote ledger by polling.  The
    development embeds the state, the ledger gateway and the hook's callbacks
    as functions on an explicit state record, and proves the reconciliation
    properties of the chat-list merge, the message poll, the optimistic send
    and its rollback.

    JavaScript arrays are lists, [Map] is a [gmap], [Set] is a [gset], and
    every object that the merge rules compare by reference carries the
    address it was allocated at. *)

From Stdlib Require Import ZArith Ascii String DecimalString DecimalPos.
From stdpp Require Import gmap strings list.

Local Open Scope string_scope.

(** ** JavaScript values *)

(** An object together with its identity: [oid] is the address of the
    allocation, [val] the fields.  Two references are the same object in the
    sense of [===] exactly when they are equal as [obj]. *)
Record obj (A : Type) := Obj { oid : nat; val : A }.
Arguments Obj {A} _ _.
Arguments oid {A} _.
Arguments val {A} _.

(** A [number] as the hook meets it: an integer, or [NaN] out of [parseInt].
    Integers are kept exact, which is what a double does up to 2^53 - 1 in
    magnitude (see [safe_integer]); the rounding of doubles beyond that is
    not represented.  Clock readings and ledger timestamps are milliseconds
    and far below. *)
Inductive number := Num (z : Z) | NaN.

(** [a !== b] on numbers: [NaN] differs from every number, itself included. *)
Definition strict_neq_number (a b : number) : bool :=
  match a, b with
  | Num x, Num y => negb (x =? y)%Z
  | _, _ => true
  end.

(** [a !== b] on [number | undefined], as produced by [x?.timestamp]. *)
Definition strict_neq (a b : option number) : bool :=
  match a, b with
  | None, None => false
  | Some x, Some y => strict_neq_number x y
  | _, _ => true
  end.

(** A thrown value: an [Error] with its message, or anything else. *)
Inductive thrown := ThrownError (message : string) | ThrownOther.

(** [err instanceof Error ? err.message : fallback] *)
Definition errorMsg (err : thrown) (fallback : string) : string :=
  match err with
  | ThrownError message => message
  | ThrownOther => fallback
  end.

(** [n.toString()] for an integer [n]: all its decimal digits.  This is
    what [Number.prototype.toString] prints for a safe integer, the range of
    [Date.now()]; beyond it a double prints rounded digits and, from 1e21
    on, exponent notation, which is not represented. *)
Definition toString (n : Z) : string := NilZero.string_of_int (Z.to_int n).

(** [new TextEncoder().encode(s)]: strings are kept in their UTF-8 form. *)
Definition encode (s : string) : list Byte.byte := list_byte_of_string s.

(** The UTF-8 byte order mark. *)
Definition BOM : list Byte.byte := [Byte.xef; Byte.xbb; Byte.xbf].

Definition stripBOM (bytes : list Byte.byte) : list Byte.byte :=
  match bytes with
  | Byte.xef :: Byte.xbb :: Byte.xbf :: rest => rest
  | _ => bytes
  end.

(** [new TextDecoder().decode(new Uint8Array(bytes))] on well-formed UTF-8:
    a leading byte order mark is dropped, the rest is the text.  (The
    replacement of ill-formed bytes by U+FFFD is not represented.) *)
Definition decode (bytes : list Byte.byte) : string :=
  string_of_list_byte (stripBOM bytes).

(** *** [parseInt] *)

Definition isWhiteSpace (c : ascii) : bool :=
  let n := nat_of_ascii c in (n =? 32)%nat || ((9 <=? n)%nat && (n <=? 13)%nat).

Fixpoint trimStart (s : string) : string :=
  match s with
  | String c s' => if isWhiteSpace c then trimStart s' else s
  | EmptyString => s
  end.

Definition digitValue (c : ascii) : option Z :=
  let n := Z.of_nat (nat_of_ascii c) in
  if (48 <=? n)%Z && (n <=? 57)%Z then Some (n - 48)%Z
  else if (97 <=? n)%Z && (n <=? 122)%Z then Some (n - 87)%Z
  else if (65 <=? n)%Z && (n <=? 90)%Z then Some (n - 55)%Z
  else None.

(** The longest prefix of digits of the radix; [None] when it is empty. *)
Fixpoint parseDigits (radix : Z) (acc : option Z) (s : string) : option Z :=
  match s with
  | String c s' =>
      match digitValue c with
      | Some d =>
          if (d <? radix)%Z
          then parseDigits radix (Some (default 0 acc * radix + d)%Z) s'
          else acc
      | None => acc
      end
  | EmptyString => acc
  end.

(** [parseInt(s)] with no radix argument: leading white space, a sign, a
    [0x] prefix for radix 16, then digits; [NaN] when no digit is found.
    White space is the ASCII white space (the other Unicode white space
    that [parseInt] skips does not occur in a numeral), and the value is
    exact, as a double is for a safe integer. *)
Definition parseInt (s : string) : number :=
  let s := trimStart s in
  let '(sign, s) :=
    match s with
    | String "-" s' => ((-1)%Z, s')
    | String "+" s' => (1%Z, s')
    | _ => (1%Z, s)
    end in
  let '(radix, s) :=
    match s with
    | String "0" (String "x" s') => (16%Z, s')
    | String "0" (String "X" s') => (16%Z, s')
    | _ => (10%Z, s)
    end in
  match parseDigits radix None s with
  | Some n => Num (sign * n)
  | None => NaN
  end.

(** ** Data model *)

(** [interface Message] *)
Module Message.
Record t := {
  sender : string;
  encrypted_message : list Byte.byte;
  content_hash : list Byte.byte;
  sent_timestamp : string;
  is_read : bool
}.
End Message.

(** [interface Chat], the record held as [currentChat]. *)
Module Chat.
Record t := {
  id : string;
  participant_1 : string;
  participant_2 : string;
  messages : list (obj Message.t);
  created_at : string
}.
End Chat.

(** The [lastMessage] member of [ChatWithMetadata]. *)
Module LastMessage.
Record t := {
  text : string;
  sender : string;
  timestamp : number
}.
End LastMessage.

(** [interface ChatWithMetadata], one chat summary. *)
Module ChatWithMetadata.
Record t := {
  id : string;
  participant_1 : string;
  participant_2 : string;
  lastMessage : option LastMessage.t;
  unreadCount : nat;
  created_at : number
}.
End ChatWithMetadata.

(** The object literal built per chat in [fetchChats] before the summaries
    are derived ([validChats]). *)
Module ChatObject.
Record t := {
  id : string;
  participant_1 : string;
  participant_2 : string;
  messages : list Message.t;
  created_at : number
}.
End ChatObject.

(** ** The ledger gateway *)

(** A message as the ledger returns it: its fields either nested under
    [fields] or flat. *)
Inductive raw_message :=
  | Nested (fields : Message.t)
  | Flat (msg : Message.t).

(** [fields] of a chat object whose content is a [moveObject]. *)
Module Fields.
Record t := {
  id : string;
  participant_1 : string;
  participant_2 : string;
  messages : option (list (obj raw_message));
  created_at : string
}.
End Fields.

(** The outcome of [suiClient.getObject]: a rejection, or a response whose
    content is a [moveObject] with its fields or is not one. *)
Inductive getObject_outcome :=
  | GetObjectThrows (err : thrown)
  | GetObjectReturns (content : option Fields.t).

(** A [ChatCreated] event ([parsedJson.chat_id]). *)
Record Event := { chat_id : string }.

(** The outcome of [suiClient.queryEvents]; [data] missing and [data] empty
    take the same branch in the hook and are both the empty list here. *)
Inductive queryEvents_outcome :=
  | QueryEventsThrows (err : thrown)
  | QueryEventsReturns (data : list Event).

(** The ledger as one refresh cycle sees it: the [ChatCreated] events in the
    order the event query pages through them, whether the query is rejected,
    and the object store. *)
Record Ledger := {
  queryEvents_rejected : option thrown;
  events : list Event;
  getObject : string -> getObject_outcome
}.

(** [suiClient.queryEvents({ query, limit })] with no cursor: the first page,
    of at most [limit] events. *)
Definition queryEvents (ledger : Ledger) (limit : nat) : queryEvents_outcome :=
  match queryEvents_rejected ledger with
  | Some err => QueryEventsThrows err
  | None => QueryEventsReturns (take limit (events ledger))
  end.

(** The outcome of signing, submitting and awaiting a transaction
    ([signAndExecute] followed by [waitForTransaction]). *)
Inductive submission :=
  | SubmissionRejected (err : thrown)
  | FinalityFailed (err : thrown)
  | Finalized (digest : string).

(** ** Hook state *)

Record State := {
  chats : list (obj ChatWithMetadata.t);
  isCreatingChat : bool;
  isFetchingChats : bool;
  chatError : option string;
  currentChat : option Chat.t;
  messages : list (obj Message.t);
  isFetchingMessages : bool;
  isSendingMessage : bool;
  (** first address not yet used by an object allocated by the hook *)
  heap_next : nat
}.

Definition setChats (f : list (obj ChatWithMetadata.t) -> list (obj ChatWithMetadata.t))
    (st : State) : State :=
  {| chats := f (chats st); isCreatingChat := isCreatingChat st;
     isFetchingChats := isFetchingChats st; chatError := chatError st;
     currentChat := currentChat st; messages := messages st;
     isFetchingMessages := isFetchingMessages st;
     isSendingMessage := isSendingMessage st; heap_next := heap_next st |}.

Definition setIsCreatingChat (b : bool) (st : State) : State :=
  {| chats := chats st; isCreatingChat := b;
     isFetchingChats := isFetchingChats st; chatError := chatError st;
     currentChat := currentChat st; messages := messages st;
     isFetchingMessages := isFetchingMessages st;
     isSendingMessage := isSendingMessage st; heap_next := heap_next st |}.

Definition setIsFetchingChats (b : bool) (st : State) : State :=
  {| chats := chats st; isCreatingChat := isCreatingChat st;
     isFetchingChats := b; chatError := chatError st;
     currentChat := currentChat st; messages := messages st;
     isFetchingMessages := isFetchingMessages st;
     isSendingMessage := isSendingMessage st; heap_next := heap_next st |}.

Definition setChatError (e : option string) (st : State) : State :=
  {| chats := chats st; isCreatingChat := isCreatingChat st;
     isFetchingChats := isFetchingChats st; chatError := e;
     currentChat := currentChat st; messages := messages st;
     isFetchingMessages := isFetchingMessages st;
     isSendingMessage := isSendingMessage st; heap_next := heap_next st |}.

Definition setCurrentChat (c : option Chat.t) (st : State) : State :=
  {| chats := chats st; isCreatingChat := isCreatingChat st;
     isFetchingChats := isFetchingChats st; chatError := chatError st;
     currentChat := c; messages := messages st;
     isFetchingMessages := isFetchingMessages st;
     isSendingMessage := isSendingMessage st; heap_next := heap_next st |}.

Definition setMessages (f : list (obj Message.t) -> list (obj Message.t))
    (st : State) : State :=
  {| chats := chats st; isCreatingChat := isCreatingChat st;
     isFetchingChats := isFetchingChats st; chatError := chatError st;
     currentChat := currentChat st; messages := f (messages st);
     isFetchingMessages := isFetchingMessages st;
     isSendingMessage := isSendingMessage st; heap_next := heap_next st |}.

Definition setIsFetchingMessages (b : bool) (st : State) : State :=
  {| chats := chats st; isCreatingChat := isCreatingChat st;
     isFetchingChats := isFetchingChats st; chatError := chatError st;
     currentChat := currentChat st; messages := messages st;
     isFetchingMessages := b;
     isSendingMessage := isSendingMessage st; heap_next := heap_next st |}.

Definition setIsSendingMessage (b : bool) (st : State) : State :=
  {| chats := chats st; isCreatingChat := isCreatingChat st;
     isFetchingChats := isFetchingChats st; chatError := chatError st;
     currentChat := currentChat st; messages := messages st;
     isFetchingMessages := isFetchingMessages st;
     isSendingMessage := b; heap_next := heap_next st |}.

(** The allocation pointer after [n] objects were created. *)
Definition allocated (n : nat) (st : State) : State :=
  {| chats := chats st; isCreatingChat := isCreatingChat st;
     isFetchingChats := isFetchingChats st; chatError := chatError st;
     currentChat := currentChat st; messages := messages st;
     isFetchingMessages := isFetchingMessages st;
     isSendingMessage := isSendingMessage st; heap_next := heap_next st + n |}.

(** Objects created one after the other from address [next] on. *)
Fixpoint allocate {A : Type} (next : nat) (vals : list A) : list (obj A) :=
  match vals with
  | [] => []
  | v :: vals' => Obj next v :: allocate (S next) vals'
  end.

(** ** Chat-list refresh: [fetchChats] *)

(** The message behind a raw ledger message ([msg.fields] when nested, the
    message itself otherwise). *)
Definition flatten (raw : raw_message) : Message.t :=
  match raw with
  | Nested fields => fields
  | Flat msg => msg
  end.

(** The body of the [events.data.map] callback: fetch the chat object of one
    event and keep it when the current user is a participant.  A rejected
    [getObject] is caught inside the callback and gives [null]. *)
Definition fetchChatObject (address : string) (ledger : Ledger) (event : Event)
    : option ChatObject.t :=
  match getObject ledger (chat_id event) with
  | GetObjectThrows _ => None
  | GetObjectReturns None => None
  | GetObjectReturns (Some fields) =>
      if bool_decide (Fields.participant_1 fields = address)
         || bool_decide (Fields.participant_2 fields = address)
      then Some {|
        ChatObject.id := chat_id event;
        ChatObject.participant_1 := Fields.participant_1 fields;
        ChatObject.participant_2 := Fields.participant_2 fields;
        ChatObject.messages :=
          (fun raw => flatten (val raw)) <$> default [] (Fields.messages fields);
        ChatObject.created_at := parseInt (Fields.created_at fields) |}
      else None
  end.

(** [chat.messages.filter(m => m.sender !== address && !m.is_read).length] *)
Definition unreadCountOf (address : string) (msgs : list Message.t) : nat :=
  length (filter (fun m => Message.sender m <> address /\ Message.is_read m = false) msgs).

(** The body of the [validChats.map] callback: the summary of one chat. *)
Definition toMetadata (address : string) (chat : ChatObject.t) : ChatWithMetadata.t :=
  let lastMsg := last (ChatObject.messages chat) in
  {| ChatWithMetadata.id := ChatObject.id chat;
     ChatWithMetadata.participant_1 := ChatObject.participant_1 chat;
     ChatWithMetadata.participant_2 := ChatObject.participant_2 chat;
     ChatWithMetadata.lastMessage :=
       (fun lastMsgFields => {|
          LastMessage.text := decode (Message.encrypted_message lastMsgFields);
          LastMessage.sender := Message.sender lastMsgFields;
          LastMessage.timestamp := parseInt (Message.sent_timestamp lastMsgFields) |})
       <$> lastMsg;
     ChatWithMetadata.unreadCount := unreadCountOf address (ChatObject.messages chat);
     ChatWithMetadata.created_at := ChatObject.created_at chat |}.

(** [chat.lastMessage?.timestamp] *)
Definition lastTimestamp (chat : ChatWithMetadata.t) : option number :=
  LastMessage.timestamp <$> ChatWithMetadata.lastMessage chat.

Definition chatId (chat : obj ChatWithMetadata.t) : string :=
  ChatWithMetadata.id (val chat).

(** [new Map(prevChats.map(chat => [chat.id, chat]))]: a later entry with the
    same key replaces an earlier one. *)
Definition insertChat (m : gmap string (obj ChatWithMetadata.t))
    (chat : obj ChatWithMetadata.t) : gmap string (obj ChatWithMetadata.t) :=
  <[chatId chat := chat]> m.

Definition existingChatsMap (prevChats : list (obj ChatWithMetadata.t))
    : gmap string (obj ChatWithMetadata.t) :=
  foldl insertChat ∅ prevChats.

(** [hasChanged] of the merge callback. *)
Definition hasChanged (existingChat newChat : ChatWithMetadata.t) : bool :=
  strict_neq (lastTimestamp existingChat) (lastTimestamp newChat)
  || negb (ChatWithMetadata.unreadCount existingChat =? ChatWithMetadata.unreadCount newChat)%nat.

(** The body of the [chatsWithMetadata.map] callback of the merge. *)
Definition mergeChat (existingChats : gmap string (obj ChatWithMetadata.t))
    (newChat : obj ChatWithMetadata.t) : obj ChatWithMetadata.t :=
  match existingChats !! chatId newChat with
  | Some existingChat =>
      if hasChanged (val existingChat) (val newChat) then newChat else existingChat
  | None => newChat
  end.

(** The updater passed to [setChats] at the end of a refresh. *)
Definition mergeChats (chatsWithMetadata prevChats : list (obj ChatWithMetadata.t))
    : list (obj ChatWithMetadata.t) :=
  match prevChats with
  | [] => chatsWithMetadata
  | _ =>
      let mergedChats := mergeChat (existingChatsMap prevChats) <$> chatsWithMetadata in
      let newChatIds : gset string := list_to_set (chatId <$> chatsWithMetadata) in
      let keptOldChats := filter (fun chat => chatId chat ∉ newChatIds) prevChats in
      (mergedChats ++ keptOldChats)%list
  end.

(** The chats of the current user among the events of one page. *)
Definition validChats (address : string) (ledger : Ledger) (data : list Event)
    : list ChatObject.t :=
  omap (fetchChatObject address ledger) data.

(** [chatsWithMetadata]: one new summary object per valid chat, in the order
    of the events. *)
Definition deriveChats (address : string) (ledger : Ledger) (data : list Event)
    (next : nat) : list (obj ChatWithMetadata.t) :=
  allocate next (toMetadata address <$> validChats address ledger data).

(** [fetchChats(silent)].  The only call that can reject into the outer
    [catch] is the event query; the [finally] block runs on every path that
    entered the [try]. *)
Definition fetchChats (currentAccount : option string) (silent : bool)
    (ledger : Ledger) (st : State) : State :=
  match currentAccount with
  | None => st
  | Some address =>
      let finally st := if silent then st else setIsFetchingChats false st in
      let st := if silent then st else setIsFetchingChats true st in
      let st := setChatError None st in
      match queryEvents ledger 50 with
      | QueryEventsThrows err =>
          finally (setChatError (Some (errorMsg err "Failed to fetch chats")) st)
      | QueryEventsReturns [] =>
          let st := setChats (fun _ => []) st in
          let st := if silent then st else setIsFetchingChats false st in
          finally st
      | QueryEventsReturns data =>
          let chatsWithMetadata := deriveChats address ledger data (heap_next st) in
          let st := allocated (length chatsWithMetadata) st in
          finally (setChats (mergeChats chatsWithMetadata) st)
      end
  end.

(** ** The open chat: [getChatById], [fetchMessages] and the message poll *)

(** [(fields.messages || []).map(...)]: a nested message is copied into a
    new object, a flat one is returned as it is. *)
Fixpoint transformMessages (next : nat) (raws : list (obj raw_message))
    : list (obj Message.t) :=
  match raws with
  | [] => []
  | raw :: raws' =>
      match val raw with
      | Nested fields => Obj next fields
      | Flat msg => Obj (oid raw) msg
      end :: transformMessages (S next) raws'
  end.

(** [getChatById(chatId)] *)
Definition getChatById (currentAccount : option string) (chatId : string)
    (ledger : Ledger) (st : State) : option Chat.t * State :=
  match currentAccount with
  | None => (None, st)
  | Some _ =>
      let st := setChatError None st in
      match getObject ledger chatId with
      | GetObjectThrows err =>
          (None, setChatError (Some (errorMsg err "Failed to fetch chat")) st)
      | GetObjectReturns None => (None, st)
      | GetObjectReturns (Some fields) =>
          let raws := default [] (Fields.messages fields) in
          let chat := {|
            Chat.id := Fields.id fields;
            Chat.participant_1 := Fields.participant_1 fields;
            Chat.participant_2 := Fields.participant_2 fields;
            Chat.messages := transformMessages (heap_next st) raws;
            Chat.created_at := Fields.created_at fields |} in
          (Some chat, setCurrentChat (Some chat) (allocated (length raws) st))
      end
  end.

(** [fetchMessages(chatId, silent)]; [getChatById] catches its own
    rejections, so the [catch] block here is never entered. *)
Definition fetchMessages (currentAccount : option string) (chatId : string)
    (silent : bool) (ledger : Ledger) (st : State) : State :=
  match currentAccount with
  | None => st
  | Some _ =>
      let st := if silent then st else setIsFetchingMessages true st in
      let st := setChatError None st in
      let '(chat, st) := getChatById currentAccount chatId ledger st in
      let st :=
        match chat with
        | Some chat => setMessages (fun _ => Chat.messages chat) st
        | None => setMessages (fun _ => []) st
        end in
      if silent then st else setIsFetchingMessages false st
  end.

Definition sentAt (msg : obj Message.t) : string := Message.sent_timestamp (val msg).

(** [arr[arr.length - 1]?.sent_timestamp] *)
Definition lastSentAt (arr : list (obj Message.t)) : option string :=
  sentAt <$> arr !! (length arr - 1).

(** [arr.some((x, idx) => f(x, idx))], the index starting at [idx]. *)
Fixpoint some {A : Type} (f : A -> nat -> bool) (idx : nat) (arr : list A) : bool :=
  match arr with
  | [] => false
  | x :: arr' => f x idx || some f (S idx) arr'
  end.

(** [hasChanges] of the updater: some fetched message has no counterpart at
    its index or one with another [sent_timestamp]. *)
Definition hasChanges (transformedMessages prevMessages : list (obj Message.t)) : bool :=
  some (fun msg idx =>
          match prevMessages !! idx with
          | None => true
          | Some prevMsg => bool_decide (sentAt prevMsg <> sentAt msg)
          end) 0 transformedMessages.

(** The updater passed to [setMessages] by the poll. *)
Definition mergeMessages (transformedMessages prevMessages : list (obj Message.t))
    : list (obj Message.t) :=
  if negb (length prevMessages =? length transformedMessages)%nat
  then transformedMessages
  else if hasChanges transformedMessages prevMessages
       then transformedMessages
       else prevMessages.

(** The comparison of one poll.  [closure] is the [messages] value the
    interval callback captured at its render, the updater sees the state. *)
Definition pollMessages (closure transformedMessages : list (obj Message.t))
    (st : State) : State :=
  let hasNewMessages := negb (length transformedMessages =? length closure)%nat in
  let lastMessageChanged :=
    (0 <? length closure)%nat && (0 <? length transformedMessages)%nat
    && bool_decide (lastSentAt closure <> lastSentAt transformedMessages) in
  if hasNewMessages || lastMessageChanged
  then setMessages (mergeMessages transformedMessages) st
  else st.

(** One tick of the 2-second interval of the open chat.  The effect and its
    callback close over [currentChat], [currentAccount] and [messages]. *)
Definition pollTick (openChat : option Chat.t) (currentAccount : option string)
    (closure : list (obj Message.t)) (ledger : Ledger) (st : State) : State :=
  match openChat, currentAccount with
  | Some chat, Some _ =>
      match getObject ledger (Chat.id chat) with
      | GetObjectThrows _ => st
      | GetObjectReturns None => st
      | GetObjectReturns (Some fields) =>
          let raws := default [] (Fields.messages fields) in
          pollMessages closure (transformMessages (heap_next st) raws)
            (allocated (length raws) st)
      end
  | _, _ => st
  end.

(** The message list the hook holds after a poll that captured the held
    list itself, which is the case whenever no other update came in between
    the render and the tick. *)
Definition poll (held fetched : list (obj Message.t)) : list (obj Message.t) :=
  let hasNewMessages := negb (length fetched =? length held)%nat in
  let lastMessageChanged :=
    (0 <? length held)%nat && (0 <? length fetched)%nat
    && bool_decide (lastSentAt held <> lastSentAt fetched) in
  if hasNewMessages || lastMessageChanged
  then mergeMessages fetched held
  else held.

(** ** Mutations: [sendMessage], [markAsRead], [startChat] *)

(** The optimistic message of a send; [Date.now()] is read once for the
    hash and once for the timestamp. *)
Definition optimisticMessage (address message : string) (now_hash now_sent : Z)
    : Message.t :=
  {| Message.sender := address;
     Message.encrypted_message := encode message;
     Message.content_hash := encode ("hash_" ++ toString now_hash);
     Message.sent_timestamp := toString now_sent;
     Message.is_read := false |}.

(** [sendMessage] up to its first [await]: the flags and the optimistic
    append. *)
Definition sendMessage_begin (address message : string) (now_hash now_sent : Z)
    (st : State) : State :=
  let st := setIsSendingMessage true st in
  let st := setChatError None st in
  let optimistic := Obj (heap_next st) (optimisticMessage address message now_hash now_sent) in
  setMessages (fun prev => (prev ++ [optimistic])%list) (allocated 1 st).

(** The [catch] block of [sendMessage]. *)
Definition sendMessage_rollback (sent_timestamp : string) (err : thrown)
    (st : State) : State :=
  let st := setChatError (Some (errorMsg err "Failed to send message")) st in
  setMessages (filter (fun msg => sentAt msg <> sent_timestamp)) st.

(** [sendMessage] from its first [await] on. *)
Definition sendMessage_settle (currentAccount : option string) (chatId : string)
    (sent_timestamp : string) (outcome : submission) (ledger : Ledger) (st : State)
    : option string * State :=
  match outcome with
  | Finalized digest =>
      let st := fetchMessages currentAccount chatId false ledger st in
      (Some digest, setIsSendingMessage false st)
  | SubmissionRejected err | FinalityFailed err =>
      (None, setIsSendingMessage false (sendMessage_rollback sent_timestamp err st))
  end.

(** [sendMessage(chatId, message)] with nothing else scheduled between its
    two halves.  The result is the digest, or [None] for [null]. *)
Definition sendMessage (currentAccount : option string) (chatId message : string)
    (now_hash now_sent : Z) (outcome : submission) (ledger : Ledger) (st : State)
    : option string * State :=
  match currentAccount with
  | None => (None, setChatError (Some "Account not connected") st)
  | Some address =>
      sendMessage_settle currentAccount chatId (toString now_sent) outcome ledger
        (sendMessage_begin address message now_hash now_sent st)
  end.

(** [markAsRead(chatId, messageIndex)]; its [catch] block only logs. *)
Definition markAsRead (currentAccount : option string) (chatId : string)
    (messageIndex : nat) (outcome : submission) (ledger : Ledger) (st : State)
    : option string * State :=
  match currentAccount with
  | None => (None, st)
  | Some _ =>
      match outcome with
      | Finalized digest =>
          (Some digest, fetchMessages currentAccount chatId false ledger st)
      | SubmissionRejected _ | FinalityFailed _ => (None, st)
      end
  end.

(** [startChat(otherUserAddress)]; [created] is the [chat_id] of the
    [ChatCreated] event of the finalized transaction, if it has one.  The
    result is [Some created] for [{ chatId }] and [None] for [null]. *)
Definition startChat (currentAccount : option string) (otherUserAddress : string)
    (outcome : submission) (created : option string) (ledger : Ledger) (st : State)
    : option (option string) * State :=
  match currentAccount with
  | None => (None, setChatError (Some "Account not connected") st)
  | Some _ =>
      let st := setIsCreatingChat true st in
      let st := setChatError None st in
      match outcome with
      | Finalized _ =>
          let st := fetchChats currentAccount false ledger st in
          (Some created, setIsCreatingChat false st)
      | SubmissionRejected err | FinalityFailed err =>
          let st := setChatError (Some (errorMsg err "Failed to start chat")) st in
          (None, setIsCreatingChat false st)
      end
  end.

(** ** Identity cache: the [fetchUsernames] effect *)

(** The outcome of [fetchProfileByAddress]: a rejection, or a profile's
    [username] ([None] when there is no profile or no username). *)
Inductive profile_outcome :=
  | ProfileThrows (err : thrown)
  | ProfileReturns (username : option string).

(** [a || b] on [string | undefined]: the empty string is falsy. *)
Definition or_else (a : option string) (b : string) : string :=
  match a with
  | Some s => if bool_decide (s = "") then b else s
  | None => b
  end.

(** The truthy value of [cache[user]], if it has one.  Keys are addresses,
    none of which is a property of [Object.prototype]. *)
Definition cachedName (cache : gmap string string) (user : string) : option string :=
  match cache !! user with
  | Some name => if bool_decide (name = "") then None else Some name
  | None => None
  end.

(** [chat.participant_1 === currentAccount?.address ? chat.participant_2
    : chat.participant_1] *)
Definition otherUser (currentAccount : option string) (chat : ChatWithMetadata.t)
    : string :=
  if bool_decide (Some (ChatWithMetadata.participant_1 chat) = currentAccount)
  then ChatWithMetadata.participant_2 chat
  else ChatWithMetadata.participant_1 chat.

(** One iteration of the [for (const chat of chats)] loop on the pair
    [(newCache, updated)]. *)
Definition fetchUsername (currentAccount : option string)
    (fetchProfileByAddress : string -> profile_outcome)
    (acc : gmap string string * bool) (chat : obj ChatWithMetadata.t)
    : gmap string string * bool :=
  let user := otherUser currentAccount (val chat) in
  match cachedName acc.1 user with
  | Some _ => acc
  | None =>
      match fetchProfileByAddress user with
      | ProfileReturns (Some username) =>
          if bool_decide (username = "") then acc
          else (<[user := username]> acc.1, true)
      | ProfileReturns None => acc
      | ProfileThrows _ => acc
      end
  end.

(** The effect that fills the username cache: the cache it leaves behind,
    given the cache the effect captured. *)
Definition fetchUsernames (currentAccount : option string)
    (fetchProfileByAddress : string -> profile_outcome)
    (chats : list (obj ChatWithMetadata.t)) (usernameCache : gmap string string)
    : gmap string string :=
  match currentAccount with
  | None => usernameCache
  | Some _ =>
      if (0 <? length chats)%nat then
        let '(newCache, updated) :=
          foldl (fetchUsername currentAccount fetchProfileByAddress)
            (usernameCache, false) chats in
        if updated then newCache else usernameCache
      else usernameCache
  end.

(** ** The views returned to the page *)

(** [s.slice(start, end)]; [None] is an omitted [end]. *)
Definition slice (s : string) (start : Z) (end_ : option Z) : string :=
  let len := Z.of_nat (String.length s) in
  let clamp i := if (i <? 0)%Z then Z.max (len + i) 0 else Z.min i len in
  let from := clamp start in
  let to := match end_ with Some e => clamp e | None => len end in
  substring (Z.to_nat from) (Z.to_nat (to - from)) s.

(** A number in a boolean position: [0] and [NaN] are falsy. *)
Definition truthy (n : number) : bool :=
  match n with
  | Num z => negb (z =? 0)%Z
  | NaN => false
  end.

(** One element of [transformedChats]. *)
Module ChatView.
Record t := {
  id : string;
  user : string;
  handle : string;
  lastMsg : string;
  timestamp : number;
  unread : nat
}.
End ChatView.

(** The body of the [chats.map] callback of [transformedChats]. *)
Definition transformChat (currentAccount : option string)
    (usernameCache : gmap string string) (chat : obj ChatWithMetadata.t) : ChatView.t :=
  let other := otherUser currentAccount (val chat) in
  let username := cachedName usernameCache other in
  {| ChatView.id := chatId chat;
     ChatView.user :=
       or_else username
         ("User " ++ slice other 0 (Some 6%Z) ++ "..." ++ slice other (-4) None);
     ChatView.handle := or_else username (slice other 0 (Some 8%Z));
     ChatView.lastMsg :=
       or_else (LastMessage.text <$> ChatWithMetadata.lastMessage (val chat))
         "No messages yet";
     ChatView.timestamp :=
       match lastTimestamp (val chat) with
       | Some t => if truthy t then t else ChatWithMetadata.created_at (val chat)
       | None => ChatWithMetadata.created_at (val chat)
       end;
     ChatView.unread := ChatWithMetadata.unreadCount (val chat) |}.

(** [transformedChats] *)
Definition transformedChats (currentAccount : option string)
    (usernameCache : gmap string string) (chats : list (obj ChatWithMetadata.t))
    : list ChatView.t :=
  transformChat currentAccount usernameCache <$> chats.

(** One element of the [messages] array the hook returns. *)
Module MessageView.
Record t := {
  id : string;
  sender : string;
  text : string;
  timestamp : number;
  is_read : bool
}.
End MessageView.

(** The body of the [messages.map] callback of the hook's result, for a
    message whose [encrypted_message] is an array. *)
Definition messageView (msg : obj Message.t) : MessageView.t :=
  {| MessageView.id := Message.sent_timestamp (val msg);
     MessageView.sender := Message.sender (val msg);
     MessageView.text := decode (Message.encrypted_message (val msg));
     MessageView.timestamp := parseInt (Message.sent_timestamp (val msg));
     MessageView.is_read := Message.is_read (val msg) |}.

(** ** The chat list as an array *)

(** The updater passed to [setChats], with the identity of the arrays: a
    held array that is empty lets the batch array through, every other case
    builds a new array (the spread of line 290) at address [next]. *)
Definition mergeChatsArray (next : nat)
    (chatsWithMetadata prevChats : obj (list (obj ChatWithMetadata.t)))
    : obj (list (obj ChatWithMetadata.t)) :=
  match val prevChats with
  | [] => chatsWithMetadata
  | _ => Obj next (mergeChats (val chatsWithMetadata) (val prevChats))
  end.

(** ** Notions used in the statements *)

(** The integers a double holds exactly ([Number.isSafeInteger]). *)
Definition safe_integer (n : Z) : Prop :=
  (- 9007199254740991 <= n <= 9007199254740991)%Z.

(** The byte order mark as text. *)
Definition BOM_string : string := string_of_list_byte BOM.

Definition byte_in (lo hi : N) (b : Byte.byte) : bool :=
  (lo <=? Byte.to_N b)%N && (Byte.to_N b <=? hi)%N.

(** Well-formed UTF-8 (Unicode, table 3-7): the byte sequences that are the
    UTF-8 form of a JavaScript string without lone surrogates, on which
    [encode] and [decode] are exact. *)
Fixpoint utf8_well_formed (bytes : list Byte.byte) : bool :=
  match bytes with
  | [] => true
  | b1 :: rest1 =>
      if byte_in 0 127 b1 then utf8_well_formed rest1 else
      match rest1 with
      | [] => false
      | b2 :: rest2 =>
          if byte_in 194 223 b1 then byte_in 128 191 b2 && utf8_well_formed rest2 else
          match rest2 with
          | [] => false
          | b3 :: rest3 =>
              if byte_in 224 224 b1 && byte_in 160 191 b2
                 || byte_in 225 236 b1 && byte_in 128 191 b2
                 || byte_in 237 237 b1 && byte_in 128 159 b2
                 || byte_in 238 239 b1 && byte_in 128 191 b2
              then byte_in 128 191 b3 && utf8_well_formed rest3 else
              match rest3 with
              | [] => false
              | b4 :: rest4 =>
                  (byte_in 240 240 b1 && byte_in 144 191 b2
                   || byte_in 241 243 b1 && byte_in 128 191 b2
                   || byte_in 244 244 b1 && byte_in 128 143 b2)
                  && byte_in 128 191 b3 && byte_in 128 191 b4
                  && utf8_well_formed rest4
              end
          end
      end
  end.


(** Unread accounting as the specification words it: the number of messages
    of a chat that the current user did not send and that are not read. *)
Fixpoint unread_messages (currentUser : string) (msgs : list Message.t) : nat :=
  match msgs with
  | [] => 0
  | m :: msgs' =>
      (if bool_decide (Message.sender m = currentUser) then 0
       else if Message.is_read m then 0 else 1)
      + unread_messages currentUser msgs'
  end.

(** Two summaries agree on the two fields the chat list shows as changing. *)
Definition summaries_agree (old new : ChatWithMetadata.t) : Prop :=
  lastTimestamp old = lastTimestamp new
  /\ ChatWithMetadata.unreadCount old = ChatWithMetadata.unreadCount new.

(** Two fetched batches carry the same data, whatever objects hold it. *)
Definition same_data {A : Type} (xs ys : list (obj A)) : Prop :=
  val <$> xs = val <$> ys.

(** The condition under which a poll ends up replacing the held list, as
    [poll_replaces] shows: the lengths differ, or the last [sent_timestamp]
    does. *)
Definition replaces (held fetched : list (obj Message.t)) : bool :=
  negb (length fetched =? length held)%nat
  || bool_decide (lastSentAt held <> lastSentAt fetched).

(** A held summary that the merge keeps when [new] is fetched: same id, no
    change in the compared fields. *)
Definition settled (held new : obj ChatWithMetadata.t) : Prop :=
  chatId held = chatId new /\ hasChanged (val held) (val new) = false.

(** The current user is one of the two participants of a summary. *)
Definition involves (address : string) (chat : obj ChatWithMetadata.t) : Prop :=
  ChatWithMetadata.participant_1 (val chat) = address
  \/ ChatWithMetadata.participant_2 (val chat) = address.

(** The value of a decimal numeral read from the left onto [acc]. *)
Fixpoint digits_value (d : Decimal.uint) (acc : Z) : Z :=
  match d with
  | Decimal.Nil => acc
  | Decimal.D0 d => digits_value d (acc * 10 + 0)
  | Decimal.D1 d => digits_value d (acc * 10 + 1)
  | Decimal.D2 d => digits_value d (acc * 10 + 2)
  | Decimal.D3 d => digits_value d (acc * 10 + 3)
  | Decimal.D4 d => digits_value d (acc * 10 + 4)
  | Decimal.D5 d => digits_value d (acc * 10 + 5)
  | Decimal.D6 d => digits_value d (acc * 10 + 6)
  | Decimal.D7 d => digits_value d (acc * 10 + 7)
  | Decimal.D8 d => digits_value d (acc * 10 + 8)
  | Decimal.D9 d => digits_value d (acc * 10 + 9)
  end%Z.

(** Every cached username is a non-empty string. *)
Definition names_nonempty (cache : gmap string string) : Prop :=
  forall user name, cache !! user = Some name -> name <> "".

(** ** Sample data *)

Module Sample.
Definition me : string := "0xme".
Definition peer : string := "0xpeer".

Definition message (sender sent_timestamp : string) (is_read : bool) : Message.t :=
  {| Message.sender := sender;
     Message.encrypted_message := encode "hi";
     Message.content_hash := encode "hash_0";
     Message.sent_timestamp := sent_timestamp;
     Message.is_read := is_read |}.

Definition summary (id : string) (timestamp : Z) (unreadCount : nat)
    : ChatWithMetadata.t :=
  {| ChatWithMetadata.id := id;
     ChatWithMetadata.participant_1 := me;
     ChatWithMetadata.participant_2 := peer;
     ChatWithMetadata.lastMessage :=
       Some {| LastMessage.text := "hi"; LastMessage.sender := peer;
               LastMessage.timestamp := Num timestamp |};
     ChatWithMetadata.unreadCount := unreadCount;
     ChatWithMetadata.created_at := Num 1 |}.

(** Held: chat A with two unread messages, chat B with none. *)
Definition heldA : obj ChatWithMetadata.t := Obj 0 (summary "0xa" 100 2).
Definition heldB : obj ChatWithMetadata.t := Obj 1 (summary "0xb" 50 0).
(** Fetched: A unchanged, B with a new message. *)
Definition fetchedA : obj ChatWithMetadata.t := Obj 2 (summary "0xa" 100 2).
Definition fetchedB : obj ChatWithMetadata.t := Obj 3 (summary "0xb" 200 1).
(** The same data fetched once more. *)
Definition refetchedA : obj ChatWithMetadata.t := Obj 4 (summary "0xa" 100 2).
Definition refetchedB : obj ChatWithMetadata.t := Obj 5 (summary "0xb" 200 1).

Definition fields (id : string) (msgs : list Message.t) : Fields.t :=
  {| Fields.id := id;
     Fields.participant_1 := me;
     Fields.participant_2 := peer;
     Fields.messages := Some (allocate 100 (Nested <$> msgs));
     Fields.created_at := "1" |}.

(** A ledger with the chats [0xa] (one unread message from the peer, one
    read, one sent by the user) and [0xb] (no message). *)
Definition store (id : string) : getObject_outcome :=
  if bool_decide (id = "0xa") then
    GetObjectReturns (Some (fields "0xa"
      [message peer "10" true; message me "20" false; message peer "30" false]))
  else if bool_decide (id = "0xb") then GetObjectReturns (Some (fields "0xb" []))
  else GetObjectReturns None.

Definition ledger (log : list Event) : Ledger :=
  {| queryEvents_rejected := None; events := log; getObject := store |}.

Definition rejecting (err : thrown) : Ledger :=
  {| queryEvents_rejected := Some err; events := []; getObject := store |}.

Definition state (held : list (obj ChatWithMetadata.t)) (msgs : list (obj Message.t))
    : State :=
  {| chats := held; isCreatingChat := false; isFetchingChats := false;
     chatError := None; currentChat := None; messages := msgs;
     isFetchingMessages := false; isSendingMessage := false; heap_next := 1000 |}.
End Sample.

(** The sample ledger with one more chat, [0xdown], whose object fetch is
    rejected. *)
Module Flaky.
Definition store (id : string) : getObject_outcome :=
  if bool_decide (id = "0xdown") then GetObjectThrows (ThrownError "fetch failed")
  else Sample.store id.

Definition ledger (log : list Event) : Ledger :=
  {| queryEvents_rejected := None; events := log; getObject := store |}.
End Flaky.

(** A profile service that knows the peer of the sample chats as "alice"
    and rejects every other lookup. *)
Module Directory.
Definition profiles (user : string) : profile_outcome :=
  if bool_decide (user = Sample.peer) then ProfileReturns (Some "alice")
  else ProfileThrows ThrownOther.

Definition cache : gmap string string := {[ "0xother" := "bob" ]}.
End Directory.

(** * Properties *)

Example parseInt_decimal : parseInt "1700000000000" = Num 1700000000000.
Proof. reflexivity. Qed.

Example parseInt_prefix : parseInt "  42abc" = Num 42.
Proof. reflexivity. Qed.

Example parseInt_hex : parseInt "0x1F" = Num 31.
Proof. reflexivity. Qed.

Example parseInt_garbage : parseInt "abc" = NaN.
Proof. reflexivity. Qed.

Example toString_now : toString 1700000000000 = "1700000000000".
Proof. reflexivity. Qed.

(** ** The map of held chats *)

Lemma foldl_insert_fresh (prev : list (obj ChatWithMetadata.t)) m k :
  k ∉ chatId <$> prev -> foldl insertChat m prev !! k = m !! k.
Proof.
  revert m. induction prev as [|c prev IH]; intros m Hk; simpl; [done|].
  rewrite fmap_cons in Hk. apply not_elem_of_cons in Hk as [Hne Hk].
  rewrite IH by done. unfold insertChat. by rewrite lookup_insert_ne.
Qed.

Lemma foldl_insert_found (prev : list (obj ChatWithMetadata.t)) m k c :
  foldl insertChat m prev !! k = Some c ->
  (c ∈ prev /\ chatId c = k) \/ m !! k = Some c.
Proof.
  revert m. induction prev as [|c' prev IH]; intros m H; simpl in *; [by right|].
  apply IH in H as [[Hin Hid]|H].
  - left. split; [by apply elem_of_cons; right|done].
  - unfold insertChat in H. destruct (decide (chatId c' = k)) as [<-|Hne].
    + rewrite lookup_insert_eq in H. injection H as <-.
      left. split; [by apply elem_of_cons; left|done].
    + rewrite lookup_insert_ne in H by done. by right.
Qed.

Lemma existingChatsMap_Some prev k c :
  existingChatsMap prev !! k = Some c -> c ∈ prev /\ chatId c = k.
Proof.
  intros H. apply foldl_insert_found in H as [H|H]; [done|].
  by rewrite lookup_empty in H.
Qed.

Lemma foldl_insert_last (prev : list (obj ChatWithMetadata.t)) m c :
  c ∈ prev -> NoDup (chatId <$> prev) -> foldl insertChat m prev !! chatId c = Some c.
Proof.
  intros Hin Hnd. apply list_elem_of_split in Hin as (l1 & l2 & ->).
  rewrite fmap_app, fmap_cons in Hnd.
  apply NoDup_app in Hnd as (_ & _ & Hnd). apply NoDup_cons in Hnd as [Hnin _].
  rewrite foldl_app. simpl. rewrite foldl_insert_fresh by done.
  unfold insertChat. by rewrite lookup_insert_eq.
Qed.

Lemma existingChatsMap_NoDup prev c :
  NoDup (chatId <$> prev) -> c ∈ prev -> existingChatsMap prev !! chatId c = Some c.
Proof. intros Hnd Hin. by apply foldl_insert_last. Qed.

Lemma existingChatsMap_None prev k :
  k ∉ chatId <$> prev -> existingChatsMap prev !! k = None.
Proof.
  intros Hk. unfold existingChatsMap. rewrite foldl_insert_fresh by done.
  apply lookup_empty.
Qed.

(** The map of a list that ends in [kept] entries of other ids looks an id
    of the front part up in the front part. *)
Lemma existingChatsMap_app_fresh front kept k :
  k ∉ chatId <$> kept ->
  existingChatsMap (front ++ kept) !! k = existingChatsMap front !! k.
Proof.
  intros Hk. unfold existingChatsMap. rewrite foldl_app.
  by rewrite foldl_insert_fresh.
Qed.

(** ** The chat-list merge *)

Lemma strict_neq_false a b : strict_neq a b = false -> a = b.
Proof.
  destruct a as [[x|]|], b as [[y|]|]; simpl; try discriminate; [|done].
  intros H. apply negb_false_iff, Z.eqb_eq in H. by subst.
Qed.

Lemma strict_neq_refl a : a <> Some NaN -> strict_neq a a = false.
Proof.
  destruct a as [[x|]|]; simpl; [|done|done].
  intros _. by rewrite Z.eqb_refl.
Qed.

Lemma hasChanged_false_agree existingChat newChat :
  hasChanged existingChat newChat = false -> summaries_agree existingChat newChat.
Proof.
  unfold hasChanged. intros H. apply orb_false_iff in H as [Hts Hun].
  split; [by apply strict_neq_false|].
  by apply negb_false_iff, Nat.eqb_eq in Hun.
Qed.

Lemma agree_hasChanged_false existingChat newChat :
  lastTimestamp newChat <> Some NaN ->
  summaries_agree existingChat newChat -> hasChanged existingChat newChat = false.
Proof.
  intros Hnum [Hts Hun]. unfold hasChanged. rewrite Hts, Hun.
  rewrite strict_neq_refl by done. by rewrite Nat.eqb_refl.
Qed.

Lemma chatId_mergeChat prev newChat :
  chatId (mergeChat (existingChatsMap prev) newChat) = chatId newChat.
Proof.
  unfold mergeChat.
  destruct (existingChatsMap prev !! chatId newChat) as [existingChat|] eqn:E; [|done].
  destruct (hasChanged _ _); [done|].
  by apply existingChatsMap_Some in E as [_ ?].
Qed.

(** With a non-empty held list the merged list starts with one entry per
    fetched summary, in the order of the batch. *)
Lemma mergeChats_lookup_merged chatsWithMetadata prevChats i newChat :
  prevChats <> [] ->
  chatsWithMetadata !! i = Some newChat ->
  mergeChats chatsWithMetadata prevChats !! i
  = Some (mergeChat (existingChatsMap prevChats) newChat).
Proof.
  intros Hne Hi. destruct prevChats as [|p prevChats]; [done|].
  unfold mergeChats. rewrite lookup_app_l.
  - by rewrite list_lookup_fmap, Hi.
  - rewrite length_fmap. by apply lookup_lt_Some in Hi.
Qed.

(** C1. For a chat id present in both the fetched batch and the held
    collection (which holds one summary per id), the merged collection has,
    at the position of the fetched summary, the held summary object itself
    when the two agree on the last-message timestamp and the unread count,
    and the fetched summary when they differ on either. *)
Theorem mergeChats_keeps_unchanged_replaces_changed
    (prevChats chatsWithMetadata : list (obj ChatWithMetadata.t))
    (old new : obj ChatWithMetadata.t) (i : nat) :
  NoDup (chatId <$> prevChats) ->
  old ∈ prevChats ->
  chatsWithMetadata !! i = Some new ->
  chatId old = chatId new ->
  lastTimestamp (val new) <> Some NaN ->
  (summaries_agree (val old) (val new) ->
     mergeChats chatsWithMetadata prevChats !! i = Some old)
  /\ (~ summaries_agree (val old) (val new) ->
     mergeChats chatsWithMetadata prevChats !! i = Some new).
Proof.
  intros Hnd Hold Hnew Hid Hnum.
  assert (Hne : prevChats <> []) by (intros ->; by apply elem_of_nil in Hold).
  rewrite (mergeChats_lookup_merged _ _ _ _ Hne Hnew).
  unfold mergeChat. rewrite <- Hid, (existingChatsMap_NoDup _ _ Hnd Hold).
  split; intros Hagree.
  - by rewrite agree_hasChanged_false.
  - destruct (hasChanged (val old) (val new)) eqn:E; [done|].
    by apply hasChanged_false_agree in E.
Qed.

Lemma mergeChats_scenario :
  mergeChats [Sample.fetchedA; Sample.fetchedB] [Sample.heldA; Sample.heldB] !! 0
    = Some Sample.heldA
  /\ mergeChats [Sample.fetchedA; Sample.fetchedB] [Sample.heldA; Sample.heldB] !! 1
    = Some Sample.fetchedB.
Proof.
  split.
  - apply (mergeChats_keeps_unchanged_replaces_changed
             [Sample.heldA; Sample.heldB] [Sample.fetchedA; Sample.fetchedB]
             Sample.heldA Sample.fetchedA 0).
    + by apply (bool_decide_unpack _).
    + repeat constructor.
    + reflexivity.
    + reflexivity.
    + discriminate.
    + split; reflexivity.
  - apply (mergeChats_keeps_unchanged_replaces_changed
             [Sample.heldA; Sample.heldB] [Sample.fetchedA; Sample.fetchedB]
             Sample.heldB Sample.fetchedB 1).
    + by apply (bool_decide_unpack _).
    + repeat constructor.
    + reflexivity.
    + reflexivity.
    + discriminate.
    + intros [H _]. discriminate H.
Defined.

(** ** The refresh cycle *)

(** The chat list a refresh leaves behind, by the outcome of the event
    query. *)
Lemma fetchChats_chats address silent ledger st :
  chats (fetchChats (Some address) silent ledger st)
  = match queryEvents ledger 50 with
    | QueryEventsThrows _ => chats st
    | QueryEventsReturns [] => []
    | QueryEventsReturns data =>
        mergeChats (deriveChats address ledger data (heap_next st)) (chats st)
    end.
Proof.
  unfold fetchChats.
  destruct (queryEvents ledger 50) as [err|[|ev data]], silent; reflexivity.
Qed.

Lemma chatId_allocate next (summaries : list ChatWithMetadata.t) :
  chatId <$> allocate next summaries = ChatWithMetadata.id <$> summaries.
Proof.
  revert next. induction summaries as [|s summaries IH]; intros next; [done|].
  cbn [allocate]. by rewrite !fmap_cons, IH.
Qed.

Lemma allocate_lookup {A} next (vals : list A) i :
  allocate next vals !! i = Obj (next + i) <$> vals !! i.
Proof.
  revert next i. induction vals as [|v vals IH]; intros next [|i]; simpl; try done.
  - by rewrite Nat.add_0_r.
  - rewrite IH. by rewrite Nat.add_succ_comm.
Qed.

Lemma length_allocate {A} next (vals : list A) :
  length (allocate next vals) = length vals.
Proof. revert next. induction vals; intros; simpl; [done|]. by f_equal. Qed.

(** The ids of the fetched batch are ids of events of the page. *)
Lemma deriveChats_ids address ledger data next id :
  id ∈ chatId <$> deriveChats address ledger data next ->
  exists event, event ∈ data /\ chat_id event = id.
Proof.
  unfold deriveChats. rewrite chatId_allocate, <- list_fmap_compose.
  intros Hin. apply list_elem_of_fmap in Hin as (chat & -> & Hin).
  unfold validChats in Hin. apply list_elem_of_omap in Hin as (event & Hev & Hsome).
  exists event. split; [done|].
  unfold fetchChatObject in Hsome.
  destruct (getObject ledger (chat_id event)) as [?|[fields|]]; try discriminate.
  destruct (_ || _); [|discriminate]. by injection Hsome as <-.
Qed.

Lemma mergeChats_elem_of chatsWithMetadata prevChats c :
  c ∈ mergeChats chatsWithMetadata prevChats ->
  c ∈ prevChats \/ chatId c ∈ chatId <$> chatsWithMetadata.
Proof.
  destruct prevChats as [|p prevChats].
  - simpl. intros Hin. right. by apply list_elem_of_fmap_2.
  - unfold mergeChats. intros Hin. apply elem_of_app in Hin as [Hin|Hin].
    + right. apply list_elem_of_fmap in Hin as (newChat & -> & Hin).
      rewrite chatId_mergeChat. by apply list_elem_of_fmap_2.
    + left. by apply list_elem_of_filter in Hin as [_ ?].
Qed.

(** A held summary whose id is not in the batch survives the merge. *)
Lemma mergeChats_keeps_old chatsWithMetadata prevChats c :
  c ∈ prevChats ->
  chatId c ∉ chatId <$> chatsWithMetadata ->
  c ∈ mergeChats chatsWithMetadata prevChats.
Proof.
  intros Hin Hid. destruct prevChats as [|p prevChats]; [by apply elem_of_nil in Hin|].
  unfold mergeChats. apply elem_of_app. right.
  apply list_elem_of_filter. split; [|done].
  by rewrite elem_of_list_to_set.
Qed.

(** C3, as the code has it. A refresh whose event query returns at least one
    event keeps every held summary whose id is not in the fetched batch (the
    very object stays in the collection). *)
Theorem fetchChats_keeps_unreturned (address : string) (silent : bool)
    (ledger : Ledger) (st : State) (data : list Event) (c : obj ChatWithMetadata.t) :
  queryEvents ledger 50 = QueryEventsReturns data ->
  data <> [] ->
  c ∈ chats st ->
  chatId c ∉ chatId <$> deriveChats address ledger data (heap_next st) ->
  c ∈ chats (fetchChats (Some address) silent ledger st).
Proof.
  intros Hq Hdata Hin Hid. rewrite fetchChats_chats, Hq.
  destruct data as [|event data]; [done|].
  by apply mergeChats_keeps_old.
Qed.

Lemma fetchChats_keeps_unreturned_sample :
  Sample.heldA
  ∈ chats (fetchChats (Some Sample.me) true (Sample.ledger [{| chat_id := "0xb" |}])
             (Sample.state [Sample.heldA] [])).
Proof.
  apply (fetchChats_keeps_unreturned Sample.me true
           (Sample.ledger [{| chat_id := "0xb" |}])
           (Sample.state [Sample.heldA] []) [{| chat_id := "0xb" |}] Sample.heldA).
  - reflexivity.
  - discriminate.
  - repeat constructor.
  - by apply (bool_decide_unpack _).
Defined.

(** C3, as stated, fails: a refresh whose event query returns no event
    completes without an exception and empties the held collection. *)
Lemma fetchChats_no_events_drops_held :
  let st := Sample.state [Sample.heldA] [] in
  let ledger := Sample.ledger [] in
  queryEvents ledger 50 = QueryEventsReturns []
  /\ Sample.heldA ∈ chats st
  /\ chats (fetchChats (Some Sample.me) true ledger st) = []
  /\ Sample.heldA ∉ chats (fetchChats (Some Sample.me) true ledger st).
Proof.
  repeat split.
  - repeat constructor.
  - simpl. apply not_elem_of_nil.
Qed.

Lemma validChats_rejected address ledger before event after err :
  getObject ledger (chat_id event) = GetObjectThrows err ->
  validChats address ledger (before ++ event :: after)
  = validChats address ledger (before ++ after).
Proof.
  intros Hget. unfold validChats. rewrite !omap_app. cbn [omap list_omap].
  unfold fetchChatObject at 2. by rewrite Hget.
Qed.

(** C6, as the code has it. A refresh whose event query raises an exception
    leaves the held chat summaries exactly as they were, surfaces the error
    message and, when it is not silent, clears the loading flag again; the
    open chat and its messages are not touched either.  An exception raised
    by the fetch of one chat object is caught inside the cycle: when the
    event query is answered no error is surfaced, and the chat list is
    merged with the batch that the other events of the page give. *)
Theorem fetchChats_exception_preserves_chats (address : string) (silent : bool)
    (ledger : Ledger) (st : State) :
  (forall err,
     queryEvents_rejected ledger = Some err ->
     chats (fetchChats (Some address) silent ledger st) = chats st
     /\ chatError (fetchChats (Some address) silent ledger st)
        = Some (errorMsg err "Failed to fetch chats")
     /\ isFetchingChats (fetchChats (Some address) silent ledger st)
        = (if silent then isFetchingChats st else false)
     /\ messages (fetchChats (Some address) silent ledger st) = messages st
     /\ currentChat (fetchChats (Some address) silent ledger st) = currentChat st)
  /\ (queryEvents_rejected ledger = None ->
      chatError (fetchChats (Some address) silent ledger st) = None
      /\ forall before event after err,
           take 50 (events ledger) = (before ++ event :: after)%list ->
           getObject ledger (chat_id event) = GetObjectThrows err ->
           chats (fetchChats (Some address) silent ledger st)
           = mergeChats
               (deriveChats address ledger (before ++ after) (heap_next st))
               (chats st)).
Proof.
  split.
  - intros err Hrej. unfold fetchChats, queryEvents. rewrite Hrej.
    destruct silent; repeat split.
  - intros Hrej. split.
    + unfold fetchChats, queryEvents. rewrite Hrej.
      by destruct (take 50 (events ledger)) as [|event data], silent.
    + intros before event after err Hpage Hget.
      rewrite fetchChats_chats. unfold queryEvents. rewrite Hrej, Hpage.
      destruct (before ++ event :: after)%list as [|e data] eqn:E;
        [by destruct before|].
      rewrite <- E. unfold deriveChats.
      by rewrite (validChats_rejected _ _ _ _ _ _ Hget).
Qed.

Lemma fetchChats_exception_sample :
  (let ledger := Sample.rejecting (ThrownError "network down") in
   let st := Sample.state [Sample.heldA; Sample.heldB] [] in
   chats (fetchChats (Some Sample.me) false ledger st) = [Sample.heldA; Sample.heldB]
   /\ chatError (fetchChats (Some Sample.me) false ledger st) = Some "network down")
  /\ (let ledger := Flaky.ledger [{| chat_id := "0xdown" |}; {| chat_id := "0xb" |}] in
      let st := Sample.state [Sample.heldA; Sample.heldB] [] in
      chatError (fetchChats (Some Sample.me) true ledger st) = None
      /\ chats (fetchChats (Some Sample.me) true ledger st)
         = mergeChats (deriveChats Sample.me ledger [{| chat_id := "0xb" |}] 1000)
             [Sample.heldA; Sample.heldB]).
Proof.
  split.
  - intros ledger st.
    destruct (proj1 (fetchChats_exception_preserves_chats Sample.me false ledger st)
                (ThrownError "network down") eq_refl) as (Hchats & Herr & _).
    split; [exact Hchats | exact Herr].
  - intros ledger st.
    destruct (proj2 (fetchChats_exception_preserves_chats Sample.me true ledger st)
                eq_refl) as (Herr & Hchats).
    split; [exact Herr|].
    exact (Hchats [] {| chat_id := "0xdown" |} [{| chat_id := "0xb" |}]
             (ThrownError "fetch failed") eq_refl eq_refl).
Defined.

(** C6, as stated, fails: the fetch of the chat object [0xdown] raises an
    exception during the refresh, yet the cycle goes on, the held list is
    replaced by another one and no error is surfaced. *)
Lemma fetchChats_swallows_chat_fetch_exception :
  let ledger := Flaky.ledger [{| chat_id := "0xdown" |}; {| chat_id := "0xb" |}] in
  let st := Sample.state [Sample.heldA; Sample.heldB] [] in
  getObject ledger "0xdown" = GetObjectThrows (ThrownError "fetch failed")
  /\ chats (fetchChats (Some Sample.me) true ledger st) <> chats st
  /\ chatError (fetchChats (Some Sample.me) true ledger st) = None.
Proof. repeat split. discriminate. Qed.

(** ** The discovery window *)

Lemma validChats_ext address ledger ledger' data :
  getObject ledger' = getObject ledger ->
  validChats address ledger' data = validChats address ledger data.
Proof. intros H. unfold validChats, fetchChatObject. by rewrite H. Qed.

(** C10. A refresh sees the event log only through its first 50 events: two
    ledgers that agree on them (and on the object store) give the same
    state; and a chat id that is neither held nor the id of one of the first
    50 events is not in the held collection after the refresh. *)
Theorem fetchChats_discovery_window (address : string) (silent : bool)
    (ledger : Ledger) (st : State) :
  (forall ledger',
     queryEvents_rejected ledger' = queryEvents_rejected ledger ->
     getObject ledger' = getObject ledger ->
     take 50 (events ledger') = take 50 (events ledger) ->
     fetchChats (Some address) silent ledger' st
     = fetchChats (Some address) silent ledger st)
  /\ (forall id,
     id ∉ chatId <$> chats st ->
     id ∉ chat_id <$> take 50 (events ledger) ->
     id ∉ chatId <$> chats (fetchChats (Some address) silent ledger st)).
Proof.
  split.
  - intros ledger' Hrej Hget Hpage.
    unfold fetchChats, queryEvents. rewrite Hrej, Hpage.
    destruct (queryEvents_rejected ledger) as [err|]; [done|].
    destruct (take 50 (events ledger)) as [|event data]; [done|].
    unfold deriveChats. by rewrite (validChats_ext _ _ _ _ Hget).
  - intros id Hheld Hpage Hin. rewrite fetchChats_chats in Hin.
    unfold queryEvents in Hin.
    destruct (queryEvents_rejected ledger) as [err|]; [done|].
    destruct (take 50 (events ledger)) as [|event data] eqn:E.
    + by apply elem_of_nil in Hin.
    + apply list_elem_of_fmap in Hin as (c & -> & Hin).
      apply mergeChats_elem_of in Hin as [Hin|Hin].
      * apply Hheld. by apply list_elem_of_fmap_2.
      * apply deriveChats_ids in Hin as (ev & Hev & Hid).
        apply Hpage. rewrite <- Hid. by apply list_elem_of_fmap_2.
Qed.

(** The chat [0xa] of the user was created by the 51st event: the refresh
    does not discover it. *)
Lemma fetchChats_discovery_window_sample :
  "0xa" ∉ chatId <$> chats (fetchChats (Some Sample.me) true
            (Sample.ledger (replicate 50 {| chat_id := "0xb" |} ++ [{| chat_id := "0xa" |}]))
            (Sample.state [] [])).
Proof.
  apply (proj2 (fetchChats_discovery_window Sample.me true
                  (Sample.ledger (replicate 50 {| chat_id := "0xb" |}
                                  ++ [{| chat_id := "0xa" |}]))
                  (Sample.state [] []))).
  - apply not_elem_of_nil.
  - by apply (bool_decide_unpack _).
Defined.

(** ** Unread accounting *)

Lemma unreadCountOf_unread_messages address msgs :
  unreadCountOf address msgs = unread_messages address msgs.
Proof.
  unfold unreadCountOf. induction msgs as [|m msgs IH]; [done|].
  rewrite filter_cons. simpl. case_bool_decide as Hs.
  - rewrite decide_False by (intros [? _]; done). done.
  - destruct (Message.is_read m) eqn:Hr.
    + rewrite decide_False by (intros [_ ?]; done). done.
    + rewrite decide_True by done. simpl. by rewrite IH.
Qed.

(** C7. The summary derived for a chat has as [unreadCount] the number of
    the chat's messages not sent by the current user and not read; and the
    entry the merged collection holds at the chat's position, whether it is
    the new summary or the held one that was kept, has that same count. *)
Theorem unreadCount_accounting (address : string) (ledger : Ledger)
    (data : list Event) (next : nat) (prevChats : list (obj ChatWithMetadata.t))
    (i : nat) (chat : ChatObject.t) :
  validChats address ledger data !! i = Some chat ->
  ChatWithMetadata.unreadCount (toMetadata address chat)
  = unread_messages address (ChatObject.messages chat)
  /\ exists s,
     mergeChats (deriveChats address ledger data next) prevChats !! i = Some s
     /\ chatId s = ChatObject.id chat
     /\ ChatWithMetadata.unreadCount (val s)
        = unread_messages address (ChatObject.messages chat).
Proof.
  intros Hi.
  assert (Hcount : ChatWithMetadata.unreadCount (toMetadata address chat)
                   = unread_messages address (ChatObject.messages chat))
    by apply unreadCountOf_unread_messages.
  split; [done|].
  assert (Hnew : deriveChats address ledger data next !! i
                 = Some (Obj (next + i) (toMetadata address chat))).
  { unfold deriveChats. by rewrite allocate_lookup, list_lookup_fmap, Hi. }
  destruct prevChats as [|p prevChats].
  - eexists. split; [exact Hnew|]. by split.
  - assert (Hne : p :: prevChats <> []) by discriminate.
    rewrite (mergeChats_lookup_merged _ _ _ _ Hne Hnew).
    eexists. split; [done|]. split; [by rewrite chatId_mergeChat|].
    unfold mergeChat.
    destruct (existingChatsMap _ !! _) as [existingChat|]; [|done].
    destruct (hasChanged _ _) eqn:E; [done|].
    apply hasChanged_false_agree in E as [_ ->]. done.
Qed.

Lemma unreadCount_accounting_sample :
  exists s,
    mergeChats (deriveChats Sample.me (Sample.ledger [{| chat_id := "0xa" |}])
                  [{| chat_id := "0xa" |}] 1000) [Sample.heldA; Sample.heldB] !! 0
    = Some s
    /\ ChatWithMetadata.unreadCount (val s) = 1.
Proof.
  destruct (unreadCount_accounting Sample.me (Sample.ledger [{| chat_id := "0xa" |}])
              [{| chat_id := "0xa" |}] 1000 [Sample.heldA; Sample.heldB] 0
              {| ChatObject.id := "0xa";
                 ChatObject.participant_1 := Sample.me;
                 ChatObject.participant_2 := Sample.peer;
                 ChatObject.messages :=
                   [Sample.message Sample.peer "10" true;
                    Sample.message Sample.me "20" false;
                    Sample.message Sample.peer "30" false];
                 ChatObject.created_at := Num 1 |} eq_refl)
    as (_ & s & Hs & _ & Hcount).
  exists s. split; [exact Hs | exact Hcount].
Defined.

(** ** The message poll *)

Lemma lastSentAt_last arr : lastSentAt arr = sentAt <$> last arr.
Proof. unfold lastSentAt. by rewrite last_lookup, Nat.sub_1_r. Qed.

Lemma some_true_lookup {A} (f : A -> nat -> bool) idx arr i x :
  arr !! i = Some x -> f x (idx + i) = true -> some f idx arr = true.
Proof.
  revert idx i. induction arr as [|y arr IH]; intros idx [|i] Hx Hf; simpl in *; try done.
  - injection Hx as ->. rewrite Nat.add_0_r in Hf. by rewrite Hf.
  - apply orb_true_iff. right. apply (IH (S idx) i Hx).
    by rewrite Nat.add_succ_comm.
Qed.

Lemma some_ext {A B} (f : A -> nat -> bool) (g : B -> nat -> bool) idx xs ys :
  Forall2 (fun x y => forall i, f x i = g y i) xs ys ->
  some f idx xs = some g idx ys.
Proof.
  intros H. revert idx. induction H as [|x y xs ys Hxy _ IH]; intros idx; simpl; [done|].
  by rewrite Hxy, IH.
Qed.

Lemma some_false {A} (f : A -> nat -> bool) idx arr :
  (forall i x, arr !! i = Some x -> f x (idx + i) = false) -> some f idx arr = false.
Proof.
  revert idx. induction arr as [|y arr IH]; intros idx Hall; simpl; [done|].
  rewrite <- (Nat.add_0_r idx) at 1. rewrite (Hall 0 y eq_refl). simpl.
  apply IH. intros i x Hx. rewrite Nat.add_succ_comm. by apply (Hall (S i)).
Qed.

Lemma poll_replaces held fetched :
  poll held fetched = if replaces held fetched then fetched else held.
Proof.
  unfold poll, replaces, mergeMessages.
  destruct (length fetched =? length held)%nat eqn:Elen; simpl.
  - apply Nat.eqb_eq in Elen. rewrite <- Elen, Nat.eqb_refl. simpl.
    case_bool_decide as Hlast; simpl.
    + destruct held as [|h held], fetched as [|f fetched]; try done.
      change (0 <? length (f :: fetched))%nat with true. cbn [andb].
      assert (Hsome : hasChanges (f :: fetched) (h :: held) = true); [|by rewrite Hsome].
      rewrite !lastSentAt_last in Hlast.
      destruct (last (f :: fetched)) as [x|] eqn:Ex; [|by apply last_None in Ex].
      rewrite last_lookup in Ex. unfold hasChanges.
      eapply (some_true_lookup _ 0 _ _ _ Ex). simpl (0 + _).
      change (length fetched) with (pred (length (f :: fetched))).
      rewrite Elen, <- last_lookup.
      destruct (last (h :: held)) as [y|] eqn:Ey; [|by apply last_None in Ey].
      apply bool_decide_eq_true. intros Heq. apply Hlast. simpl. by rewrite Heq.
    + by rewrite andb_false_r.
  - apply Nat.eqb_neq in Elen.
    assert (Hneq : (length held =? length fetched)%nat = false)
      by (apply Nat.eqb_neq; congruence).
    by rewrite Hneq.
Qed.

Lemma pollMessages_messages st fetched :
  messages (pollMessages (messages st) fetched st) = poll (messages st) fetched.
Proof. unfold pollMessages, poll. by destruct (_ || _). Qed.

(** A tick whose callback captured the held messages compares them with
    the transformed messages of the fetched chat object. *)
Lemma pollTick_messages chat address fields ledger st :
  getObject ledger (Chat.id chat) = GetObjectReturns (Some fields) ->
  messages (pollTick (Some chat) (Some address) (messages st) ledger st)
  = poll (messages st)
      (transformMessages (heap_next st) (default [] (Fields.messages fields))).
Proof.
  intros Hget. unfold pollTick. rewrite Hget.
  apply (pollMessages_messages (allocated _ st)).
Qed.

Lemma lookup_eq_lastSentAt (held fetched : list (obj Message.t)) :
  length fetched = length held ->
  (forall i, sentAt <$> fetched !! i = sentAt <$> held !! i) ->
  lastSentAt fetched = lastSentAt held.
Proof. intros Hlen Hall. unfold lastSentAt. rewrite Hlen. apply Hall. Qed.

(** The gate of the callback is the condition [replaces] on the captured
    list. *)
Lemma pollMessages_gate closure fetched st :
  pollMessages closure fetched st
  = if replaces closure fetched
    then setMessages (mergeMessages fetched) st
    else st.
Proof.
  unfold pollMessages, replaces.
  destruct (length fetched =? length closure)%nat eqn:Elen; [|done].
  apply Nat.eqb_eq in Elen. cbn [negb orb].
  by destruct closure as [|c closure], fetched as [|f fetched].
Qed.

Lemma hasChanges_differs fetched prevMessages :
  (exists i, sentAt <$> fetched !! i <> sentAt <$> prevMessages !! i) ->
  length fetched = length prevMessages ->
  hasChanges fetched prevMessages = true.
Proof.
  intros [i Hi] Hlen. unfold hasChanges.
  destruct (fetched !! i) as [x|] eqn:Ex.
  - eapply (some_true_lookup _ 0 _ _ _ Ex). simpl (0 + _).
    destruct (prevMessages !! i) as [y|]; [|done].
    apply bool_decide_eq_true. intros Heq. apply Hi. simpl. by rewrite Heq.
  - exfalso. apply Hi. apply lookup_ge_None in Ex. rewrite Hlen in Ex.
    apply lookup_ge_None in Ex. by rewrite Ex.
Qed.

Lemma hasChanges_same fetched prevMessages :
  (forall i, sentAt <$> fetched !! i = sentAt <$> prevMessages !! i) ->
  hasChanges fetched prevMessages = false.
Proof.
  intros Hall. unfold hasChanges. apply some_false. intros i x Hx. simpl.
  specialize (Hall i). rewrite Hx in Hall.
  destruct (prevMessages !! i) as [prevMsg|]; [|done].
  simpl in Hall. injection Hall as Hall.
  by apply bool_decide_eq_false; intros H; apply H.
Qed.

(** C2, as the code has it. A poll decides in two stages.  The callback
    compares the fetched list with the list it captured at its render: with
    equal lengths and the same last [sent_timestamp] the fetch result is
    discarded and the state is not touched.  Otherwise the updater compares
    the fetched list with the messages held when it runs: it replaces them
    wholesale when the lengths differ or some [sent_timestamp] differs at
    some index, and keeps them otherwise.  When the callback captured the
    held messages themselves, this gives: replaced when the lengths differ;
    kept when the lengths are equal and the last [sent_timestamp] is the
    same; replaced when the lengths are equal and the last [sent_timestamp]
    differs. *)
Theorem pollMessages_decision (closure fetched : list (obj Message.t)) (st : State) :
  (length fetched = length closure ->
   lastSentAt fetched = lastSentAt closure ->
   pollMessages closure fetched st = st)
  /\ (length fetched <> length closure \/ lastSentAt fetched <> lastSentAt closure ->
      (length fetched <> length (messages st) ->
         messages (pollMessages closure fetched st) = fetched)
      /\ (length fetched = length (messages st) ->
          (exists i, sentAt <$> fetched !! i <> sentAt <$> messages st !! i) ->
          messages (pollMessages closure fetched st) = fetched)
      /\ (length fetched = length (messages st) ->
          (forall i, sentAt <$> fetched !! i = sentAt <$> messages st !! i) ->
          messages (pollMessages closure fetched st) = messages st))
  /\ (closure = messages st ->
      (length fetched <> length (messages st) ->
         messages (pollMessages closure fetched st) = fetched)
      /\ (length fetched = length (messages st) ->
          lastSentAt fetched = lastSentAt (messages st) ->
          pollMessages closure fetched st = st)
      /\ (length fetched = length (messages st) ->
          lastSentAt fetched <> lastSentAt (messages st) ->
          messages (pollMessages closure fetched st) = fetched)).
Proof.
  assert (Hkeep : forall c, length fetched = length c ->
                  lastSentAt fetched = lastSentAt c ->
                  pollMessages c fetched st = st).
  { intros c Hlen Hlast. rewrite pollMessages_gate. unfold replaces.
    rewrite Hlen, Nat.eqb_refl, Hlast. simpl.
    by rewrite bool_decide_false by (intros H; by apply H). }
  split; [apply Hkeep|]. split.
  - intros Hgate.
    assert (Hrep : replaces closure fetched = true).
    { unfold replaces. destruct Hgate as [Hlen|Hlast].
      - apply Nat.eqb_neq in Hlen. by rewrite Hlen.
      - rewrite (bool_decide_true (lastSentAt closure <> lastSentAt fetched))
          by (intros H; by apply Hlast).
        by rewrite orb_true_r. }
    rewrite pollMessages_gate, Hrep. cbn [messages setMessages].
    unfold mergeMessages. split; [|split].
    + intros Hlen.
      assert (Hneq : (length (messages st) =? length fetched)%nat = false)
        by (apply Nat.eqb_neq; congruence).
      by rewrite Hneq.
    + intros Hlen Hdiff. rewrite <- Hlen, Nat.eqb_refl. cbn [negb].
      by rewrite hasChanges_differs.
    + intros Hlen Hall. rewrite <- Hlen, Nat.eqb_refl. cbn [negb].
      by rewrite hasChanges_same.
  - intros ->. split; [|split].
    + intros Hlen. rewrite pollMessages_messages, poll_replaces. unfold replaces.
      apply Nat.eqb_neq in Hlen. by rewrite Hlen.
    + apply Hkeep.
    + intros Hlen Hlast. rewrite pollMessages_messages, poll_replaces. unfold replaces.
      rewrite bool_decide_true by (intros H; by apply Hlast).
      by rewrite orb_true_r.
Qed.

Lemma pollMessages_decision_sample :
  let held := [Obj 0 (Sample.message Sample.peer "1" true);
               Obj 1 (Sample.message Sample.me "5" false)] in
  let fetched := [Obj 2 (Sample.message Sample.peer "1" true);
                  Obj 3 (Sample.message Sample.me "7" false)] in
  messages (pollMessages held fetched (Sample.state [] held)) = fetched
  /\ messages (pollMessages [] fetched (Sample.state [] held)) = fetched.
Proof.
  intros held fetched. split.
  - apply (proj2 (proj2 (proj2 (proj2
             (pollMessages_decision held fetched (Sample.state [] held))) eq_refl))).
    + reflexivity.
    + discriminate.
  - destruct (pollMessages_decision [] fetched (Sample.state [] held))
      as (_ & Hupdater & _).
    destruct Hupdater as (_ & Hdiffers & _); [left; discriminate|].
    apply Hdiffers; [reflexivity|]. exists 1. discriminate.
Defined.

(** C2, as stated, fails: the lengths are equal and the [sent_timestamp] at
    index 0 differs, yet the poll keeps the held list, because the last
    [sent_timestamp] is the same and the updater is never called. *)
Lemma pollMessages_misses_inner_change :
  let held := [Obj 0 (Sample.message Sample.peer "1" true);
               Obj 1 (Sample.message Sample.me "5" false)] in
  let fetched := [Obj 2 (Sample.message Sample.peer "2" true);
                  Obj 3 (Sample.message Sample.me "5" false)] in
  let st := Sample.state [] held in
  length fetched = length (messages st)
  /\ sentAt <$> fetched !! 0 <> sentAt <$> messages st !! 0
  /\ messages (pollMessages (messages st) fetched st) = held
  /\ messages (pollMessages (messages st) fetched st) <> fetched.
Proof. repeat split; discriminate. Qed.

(** ** Idempotence of the two merges *)

Lemma same_data_Forall2 {A} (xs ys : list (obj A)) :
  same_data xs ys -> Forall2 (fun x y => val x = val y) xs ys.
Proof.
  unfold same_data. intros H. apply list_eq_Forall2 in H.
  by apply (Forall2_fmap val val eq) in H.
Qed.

Lemma filter_all {A} (P : A -> Prop) `{!forall x, Decision (P x)} (l : list A) :
  (forall x, x ∈ l -> P x) -> filter P l = l.
Proof.
  induction l as [|x l IH]; intros Hall; [done|].
  rewrite filter_cons_True by (apply Hall; by left).
  f_equal. apply IH. intros y Hy. apply Hall. by right.
Qed.

Lemma filter_none {A} (P : A -> Prop) `{!forall x, Decision (P x)} (l : list A) :
  (forall x, x ∈ l -> ~ P x) -> filter P l = [].
Proof.
  induction l as [|x l IH]; intros Hall; [done|].
  rewrite filter_cons_False by (apply Hall; by left).
  apply IH. intros y Hy. apply Hall. by right.
Qed.

Lemma mergeChats_nonempty chatsWithMetadata prevChats :
  prevChats <> [] ->
  mergeChats chatsWithMetadata prevChats
  = ((mergeChat (existingChatsMap prevChats) <$> chatsWithMetadata)
     ++ filter (fun chat => chatId chat ∉ (list_to_set (chatId <$> chatsWithMetadata) : gset string))
          prevChats)%list.
Proof. by destruct prevChats. Qed.

Lemma settled_ids front batch :
  Forall2 settled front batch -> chatId <$> front = chatId <$> batch.
Proof.
  induction 1 as [|x y front batch [Hid _] _ IH]; [done|].
  by rewrite !fmap_cons, Hid, IH.
Qed.

(** A held list made of the settled counterparts of the batch, followed by
    summaries of other ids, is a fixed point of the merge with that batch. *)
Lemma mergeChats_settled front kept batch :
  Forall2 settled front batch ->
  NoDup (chatId <$> front) ->
  (forall c, c ∈ kept -> chatId c ∉ chatId <$> front) ->
  mergeChats batch (front ++ kept)%list = (front ++ kept)%list.
Proof.
  intros Hset Hnd Hkept.
  destruct (decide ((front ++ kept)%list = [])) as [Hnil|Hne].
  { apply app_eq_nil in Hnil as [-> ->]. by inversion Hset. }
  rewrite mergeChats_nonempty by done.
  pose proof (settled_ids _ _ Hset) as Hids.
  f_equal.
  - apply list_eq. intros i. rewrite list_lookup_fmap.
    destruct (batch !! i) as [new|] eqn:Enew; simpl.
    + destruct (Forall2_lookup_r _ _ _ _ _ Hset Enew) as (held & Eheld & Hid & Hsame).
      rewrite Eheld. f_equal. unfold mergeChat. rewrite <- Hid.
      rewrite existingChatsMap_app_fresh.
      * rewrite existingChatsMap_NoDup by (done || by eapply list_elem_of_lookup_2).
        by rewrite Hsame.
      * intros Hin. apply list_elem_of_fmap in Hin as (c & Hc & Hin).
        apply (Hkept c Hin). rewrite <- Hc.
        apply list_elem_of_fmap_2. by eapply list_elem_of_lookup_2.
    + symmetry. apply lookup_ge_None. apply lookup_ge_None in Enew.
      by rewrite (Forall2_length _ _ _ Hset).
  - rewrite filter_app, <- Hids.
    rewrite filter_none, filter_all; [done| |].
    + intros c Hc. rewrite elem_of_list_to_set. by apply Hkept.
    + intros c Hc Hnot. apply Hnot. rewrite elem_of_list_to_set.
      by apply list_elem_of_fmap_2.
Qed.

Lemma settled_mergeChat prevChats batch1 batch2 :
  Forall2 (fun x y => val x = val y) batch1 batch2 ->
  Forall (fun c => lastTimestamp (val c) <> Some NaN) batch1 ->
  Forall2 settled (mergeChat (existingChatsMap prevChats) <$> batch1) batch2.
Proof.
  induction 1 as [|x y batch1 batch2 Hxy _ IH]; intros Hnum; [constructor|].
  apply Forall_cons in Hnum as [Hx Hnum]. rewrite fmap_cons.
  constructor; [|by apply IH].
  assert (Hid : chatId x = chatId y) by (unfold chatId; by rewrite Hxy).
  split; [by rewrite chatId_mergeChat|].
  rewrite <- Hxy. unfold mergeChat.
  destruct (existingChatsMap prevChats !! chatId x) as [existingChat|].
  - destruct (hasChanged (val existingChat) (val x)) eqn:E; [|done].
    by apply agree_hasChanged_false.
  - by apply agree_hasChanged_false.
Qed.

Lemma settled_same_data batch1 batch2 :
  Forall2 (fun x y => val x = val y) batch1 batch2 ->
  Forall (fun c => lastTimestamp (val c) <> Some NaN) batch1 ->
  Forall2 settled batch1 batch2.
Proof.
  induction 1 as [|x y batch1 batch2 Hxy _ IH]; intros Hnum; [constructor|].
  apply Forall_cons in Hnum as [Hx Hnum].
  constructor; [|by apply IH].
  split; [unfold chatId; by rewrite Hxy|].
  rewrite <- Hxy. by apply agree_hasChanged_false.
Qed.

Lemma chatId_merged prevChats (batch : list (obj ChatWithMetadata.t)) :
  chatId <$> (mergeChat (existingChatsMap prevChats) <$> batch) = chatId <$> batch.
Proof.
  induction batch as [|c batch IH]; [done|].
  by rewrite !fmap_cons, chatId_mergeChat, IH.
Qed.

Lemma mergeChats_idempotent prevChats batch1 batch2 :
  same_data batch1 batch2 ->
  NoDup (chatId <$> batch1) ->
  (forall c, c ∈ batch1 -> lastTimestamp (val c) <> Some NaN) ->
  mergeChats batch2 (mergeChats batch1 prevChats) = mergeChats batch1 prevChats.
Proof.
  intros Hsame%same_data_Forall2 Hnd Hnum%Forall_forall.
  destruct prevChats as [|p prevChats].
  - simpl. rewrite <- (app_nil_r batch1) at 1 2.
    apply mergeChats_settled; [by apply settled_same_data|done|].
    intros c Hc. by apply elem_of_nil in Hc.
  - rewrite (mergeChats_nonempty batch1) by done.
    apply mergeChats_settled.
    + by apply settled_mergeChat.
    + by rewrite chatId_merged.
    + intros c Hc. rewrite chatId_merged.
      apply list_elem_of_filter in Hc as [Hc _]. by rewrite elem_of_list_to_set in Hc.
Qed.

Lemma replaces_same_data held fetched1 fetched2 :
  same_data fetched1 fetched2 -> replaces held fetched1 = replaces held fetched2.
Proof.
  intros Hsame. unfold replaces.
  assert (Hlen : length fetched1 = length fetched2).
  { by rewrite <- (length_fmap val fetched1), Hsame, length_fmap. }
  assert (Hlast : lastSentAt fetched1 = lastSentAt fetched2).
  { unfold lastSentAt. rewrite Hlen.
    assert (Hi : val <$> fetched1 !! (length fetched2 - 1)
                 = val <$> fetched2 !! (length fetched2 - 1))
      by (by rewrite <- !list_lookup_fmap, Hsame).
    destruct (fetched1 !! _) as [x|], (fetched2 !! _) as [y|]; simpl in *; try done.
    unfold sentAt. congruence. }
  by rewrite Hlen, Hlast.
Qed.

Lemma replaces_refl_same_data fetched1 fetched2 :
  same_data fetched1 fetched2 -> replaces fetched1 fetched2 = false.
Proof.
  intros Hsame. rewrite <- (replaces_same_data _ _ _ Hsame). unfold replaces.
  rewrite Nat.eqb_refl. simpl. by apply bool_decide_eq_false; intros H; apply H.
Qed.

(** A poll whose condition is false does not touch the state. *)
Lemma pollMessages_kept closure fetched st :
  replaces closure fetched = false -> pollMessages closure fetched st = st.
Proof.
  unfold replaces, pollMessages. intros H. apply orb_false_iff in H as [-> ->].
  by rewrite andb_false_r.
Qed.

Lemma pollMessages_idempotent st fetched1 fetched2 :
  same_data fetched1 fetched2 ->
  pollMessages (messages (pollMessages (messages st) fetched1 st)) fetched2
    (pollMessages (messages st) fetched1 st)
  = pollMessages (messages st) fetched1 st.
Proof.
  intros Hsame. apply pollMessages_kept.
  rewrite pollMessages_messages, poll_replaces.
  destruct (replaces (messages st) fetched1) eqn:E.
  - by apply replaces_refl_same_data.
  - by rewrite <- (replaces_same_data _ _ _ Hsame).
Qed.

Lemma val_mergeChatsArray next chatsWithMetadata prevChats :
  val (mergeChatsArray next chatsWithMetadata prevChats)
  = mergeChats (val chatsWithMetadata) (val prevChats).
Proof. unfold mergeChatsArray. by destruct (val prevChats). Qed.

Lemma oid_mergeChatsArray next chatsWithMetadata prevChats :
  oid (mergeChatsArray next chatsWithMetadata prevChats) = oid chatsWithMetadata
  \/ oid (mergeChatsArray next chatsWithMetadata prevChats) = next.
Proof. unfold mergeChatsArray. destruct (val prevChats); [by left|by right]. Qed.

(** C8, as the code has it. Merging a second batch that carries the same
    data as the first (in new objects) gives back the summary objects the
    first merge produced, object for object and in the same order, when the
    ids of the batch are distinct and its timestamps are numbers; but the
    array that holds them is another one than the array the first merge
    left, since every refresh builds a new array.  A second poll of the open
    chat with the same fetched data, each poll having captured the messages
    held when it runs, leaves the state of the first poll untouched. *)
Theorem merge_idempotent :
  (forall prevChats batch1 batch2 : list (obj ChatWithMetadata.t),
     same_data batch1 batch2 ->
     NoDup (chatId <$> batch1) ->
     (forall c, c ∈ batch1 -> lastTimestamp (val c) <> Some NaN) ->
     mergeChats batch2 (mergeChats batch1 prevChats) = mergeChats batch1 prevChats)
  /\ (forall (next1 next2 : nat)
        (prevChats batch1 batch2 : obj (list (obj ChatWithMetadata.t))),
     same_data (val batch1) (val batch2) ->
     NoDup (chatId <$> val batch1) ->
     (forall c, c ∈ val batch1 -> lastTimestamp (val c) <> Some NaN) ->
     val (mergeChatsArray next2 batch2 (mergeChatsArray next1 batch1 prevChats))
     = val (mergeChatsArray next1 batch1 prevChats)
     /\ (oid batch2 <> oid batch1 -> oid batch2 <> next1 ->
         next2 <> oid batch1 -> next2 <> next1 ->
         mergeChatsArray next2 batch2 (mergeChatsArray next1 batch1 prevChats)
         <> mergeChatsArray next1 batch1 prevChats))
  /\ (forall (st : State) (fetched1 fetched2 : list (obj Message.t)),
     same_data fetched1 fetched2 ->
     pollMessages (messages (pollMessages (messages st) fetched1 st)) fetched2
       (pollMessages (messages st) fetched1 st)
     = pollMessages (messages st) fetched1 st).
Proof.
  split; [apply mergeChats_idempotent|]. split; [|apply pollMessages_idempotent].
  intros next1 next2 prevChats batch1 batch2 Hsame Hnd Hnum. split.
  - rewrite !val_mergeChatsArray. by apply mergeChats_idempotent.
  - intros H1 H2 H3 H4 Heq. apply (f_equal oid) in Heq.
    destruct (oid_mergeChatsArray next1 batch1 prevChats) as [Ho1|Ho1];
      destruct (oid_mergeChatsArray next2 batch2
                  (mergeChatsArray next1 batch1 prevChats)) as [Ho2|Ho2];
      congruence.
Qed.

Lemma merge_idempotent_sample :
  mergeChats [Sample.refetchedA; Sample.refetchedB]
    (mergeChats [Sample.fetchedA; Sample.fetchedB] [Sample.heldA; Sample.heldB])
  = [Sample.heldA; Sample.fetchedB]
  /\ val (mergeChatsArray 24 (Obj 23 [Sample.refetchedA; Sample.refetchedB])
            (mergeChatsArray 22 (Obj 21 [Sample.fetchedA; Sample.fetchedB])
               (Obj 20 [Sample.heldA; Sample.heldB])))
     = [Sample.heldA; Sample.fetchedB]
  /\ messages
       (pollMessages
          (messages (pollMessages [] [Obj 0 (Sample.message Sample.peer "1" false)]
                       (Sample.state [] [])))
          [Obj 1 (Sample.message Sample.peer "1" false)]
          (pollMessages [] [Obj 0 (Sample.message Sample.peer "1" false)]
             (Sample.state [] [])))
     = [Obj 0 (Sample.message Sample.peer "1" false)].
Proof.
  assert (Hnum : forall c, c ∈ [Sample.fetchedA; Sample.fetchedB] ->
                   lastTimestamp (val c) <> Some NaN).
  { intros c Hc.
    repeat (apply elem_of_cons in Hc as [->|Hc]; [discriminate|]).
    by apply elem_of_nil in Hc. }
  assert (Hnd : NoDup (chatId <$> [Sample.fetchedA; Sample.fetchedB]))
    by (by apply (bool_decide_unpack _)).
  split; [|split].
  - rewrite (proj1 merge_idempotent [Sample.heldA; Sample.heldB]
               [Sample.fetchedA; Sample.fetchedB]
               [Sample.refetchedA; Sample.refetchedB] eq_refl Hnd Hnum).
    reflexivity.
  - destruct (proj1 (proj2 merge_idempotent) 22 24
                (Obj 20 [Sample.heldA; Sample.heldB])
                (Obj 21 [Sample.fetchedA; Sample.fetchedB])
                (Obj 23 [Sample.refetchedA; Sample.refetchedB]) eq_refl Hnd Hnum)
      as [Hval _].
    rewrite Hval. reflexivity.
  - pose proof (proj2 (proj2 merge_idempotent) (Sample.state [] [])
                  [Obj 0 (Sample.message Sample.peer "1" false)]
                  [Obj 1 (Sample.message Sample.peer "1" false)] eq_refl) as H.
    exact (f_equal messages H).
Defined.

(** C8, as stated, fails for the chat list: the second merge, with the same
    data fetched again, holds the same summary objects in the same order, but
    the array it returns is a new one, not the array the first merge left. *)
Lemma mergeChatsArray_not_reference_identical :
  let held := Obj 20 [Sample.heldA; Sample.heldB] in
  let first := mergeChatsArray 22 (Obj 21 [Sample.fetchedA; Sample.fetchedB]) held in
  let second := mergeChatsArray 24 (Obj 23 [Sample.refetchedA; Sample.refetchedB]) first in
  val second = val first /\ oid first = 22 /\ oid second = 24 /\ second <> first.
Proof. repeat split. discriminate. Qed.

(** The same at the level of the refresh: a second cycle over an unchanged
    ledger leaves the chat list of the first cycle as it is. *)
Lemma fetchChats_idempotent address silent1 silent2 ledger st :
  NoDup (ChatObject.id <$> validChats address ledger (take 50 (events ledger))) ->
  (forall chat, chat ∈ validChats address ledger (take 50 (events ledger)) ->
     lastTimestamp (toMetadata address chat) <> Some NaN) ->
  chats (fetchChats (Some address) silent2 ledger
           (fetchChats (Some address) silent1 ledger st))
  = chats (fetchChats (Some address) silent1 ledger st).
Proof.
  intros Hnd Hnum. rewrite !fetchChats_chats. unfold queryEvents.
  destruct (queryEvents_rejected ledger) as [err|]; [done|].
  destruct (take 50 (events ledger)) as [|event data]; [done|].
  set (page := event :: data) in *.
  apply mergeChats_idempotent.
  - unfold same_data, deriveChats.
    assert (Hval : forall A n (vals : list A), val <$> allocate n vals = vals).
    { intros A n vals. revert n. induction vals as [|v vals IH]; intros n; [done|].
      cbn [allocate]. by rewrite fmap_cons, IH. }
    by rewrite !Hval.
  - unfold deriveChats. rewrite chatId_allocate, <- list_fmap_compose. exact Hnd.
  - intros c Hc. unfold deriveChats in Hc.
    apply list_elem_of_lookup in Hc as [i Hi]. rewrite allocate_lookup in Hi.
    rewrite list_lookup_fmap in Hi.
    destruct (validChats address ledger page !! i) as [chat|] eqn:E; [|done].
    injection Hi as <-. simpl. apply Hnum. by eapply list_elem_of_lookup_2.
Qed.

(** ** Optimistic send and rollback *)

(** C5. With a connected account, the synchronous first half of
    [sendMessage] appends one new message to the end of the held sequence:
    its sender is the current user, its [sent_timestamp] the clock reading,
    its body the encoded text; the sequence is one longer and the new
    message is last.  The rest of the call runs from that state. *)
Theorem sendMessage_optimistic_append (address chatId message : string)
    (now_hash now_sent : Z) (outcome : submission) (ledger : Ledger) (st : State) :
  sendMessage (Some address) chatId message now_hash now_sent outcome ledger st
  = sendMessage_settle (Some address) chatId (toString now_sent) outcome ledger
      (sendMessage_begin address message now_hash now_sent st)
  /\ exists optimistic,
     messages (sendMessage_begin address message now_hash now_sent st)
     = (messages st ++ [optimistic])%list
     /\ last (messages (sendMessage_begin address message now_hash now_sent st))
        = Some optimistic
     /\ length (messages (sendMessage_begin address message now_hash now_sent st))
        = S (length (messages st))
     /\ oid optimistic = heap_next st
     /\ Message.sender (val optimistic) = address
     /\ Message.sent_timestamp (val optimistic) = toString now_sent
     /\ Message.encrypted_message (val optimistic) = encode message
     /\ Message.is_read (val optimistic) = false.
Proof.
  split; [reflexivity|].
  eexists. split; [reflexivity|]. split; [|split].
  - simpl. apply last_snoc.
  - simpl. rewrite length_app. simpl. lia.
  - repeat split.
Qed.

Example sendMessage_begin_sample :
  messages (sendMessage_begin Sample.me "hi" 1700000000000 1700000000001
              (Sample.state [] [Obj 0 (Sample.message Sample.peer "1" true)]))
  = [Obj 0 (Sample.message Sample.peer "1" true);
     Obj 1000 {| Message.sender := Sample.me;
                 Message.encrypted_message := encode "hi";
                 Message.content_hash := encode "hash_1700000000000";
                 Message.sent_timestamp := "1700000000001";
                 Message.is_read := false |}].
Proof. reflexivity. Qed.

(** X28. The rollback is exact when no held message carries the provisional
    timestamp: after a failed send the held messages are those held before
    the call. *)
Lemma sendMessage_failure_restores (address chatId message : string)
    (now_hash now_sent : Z) (outcome : submission) (err : thrown)
    (ledger : Ledger) (st : State) :
  outcome = SubmissionRejected err \/ outcome = FinalityFailed err ->
  (forall msg, msg ∈ messages st -> sentAt msg <> toString now_sent) ->
  messages (sendMessage (Some address) chatId message now_hash now_sent
              outcome ledger st).2
  = messages st.
Proof.
  intros Hout Hfresh.
  assert (Hmsgs : filter (fun msg => sentAt msg <> toString now_sent)
                    (messages (sendMessage_begin address message now_hash now_sent st))
                  = messages st).
  { simpl. rewrite filter_app, filter_all by done.
    rewrite filter_cons_False by (intros H; by apply H). apply app_nil_r. }
  by destruct Hout as [-> | ->].
Qed.

(** C4. The rollback of a failed send removes every held message that
    carries the provisional timestamp, not only the optimistic entry: after
    a send that fails in the millisecond of an earlier, still pending send,
    the earlier entry is gone as well and the held sequence is not the one
    held before the call. *)
Theorem sendMessage_rollback_removes_colliding :
  let pending := Obj 0 (Sample.message Sample.me "1700000000000" false) in
  let st := Sample.state [] [pending] in
  let st' := (sendMessage (Some Sample.me) "0xa" "hi" 1700000000000 1700000000000
                (SubmissionRejected (ThrownError "User rejected"))
                (Sample.ledger []) st).2 in
  messages st = [pending] /\ messages st' = [] /\ messages st' <> messages st.
Proof. repeat split. discriminate. Qed.

(** ** Failure reporting of the mutations *)

(** C9, as the code has it. A [sendMessage] or [startChat] whose submission
    is rejected or never finalized returns [null], puts the error message
    in the error state and clears its busy flag; a [markAsRead] that fails
    the same way returns [null] and leaves the whole state, the error state
    included, as it was. *)
Theorem mutation_failure_reporting (address chatId message otherUser : string)
    (messageIndex : nat) (now_hash now_sent : Z) (created : option string)
    (outcome : submission) (err : thrown) (ledger : Ledger) (st : State) :
  outcome = SubmissionRejected err \/ outcome = FinalityFailed err ->
  (let r := sendMessage (Some address) chatId message now_hash now_sent
              outcome ledger st in
   r.1 = None
   /\ chatError r.2 = Some (errorMsg err "Failed to send message")
   /\ isSendingMessage r.2 = false)
  /\ (let r := startChat (Some address) otherUser outcome created ledger st in
      r.1 = None
      /\ chatError r.2 = Some (errorMsg err "Failed to start chat")
      /\ isCreatingChat r.2 = false)
  /\ markAsRead (Some address) chatId messageIndex outcome ledger st = (None, st).
Proof. intros [-> | ->]; repeat split. Qed.

Lemma mutation_failure_reporting_sample :
  chatError (sendMessage (Some Sample.me) "0xa" "hi" 1 2
               (SubmissionRejected (ThrownError "User rejected"))
               (Sample.ledger []) (Sample.state [] [])).2
  = Some "User rejected"
  /\ markAsRead (Some Sample.me) "0xa" 3
       (SubmissionRejected (ThrownError "User rejected"))
       (Sample.ledger []) (Sample.state [] [])
     = (None, Sample.state [] []).
Proof.
  destruct (mutation_failure_reporting Sample.me "0xa" "hi" Sample.peer 3 1 2 None
              (SubmissionRejected (ThrownError "User rejected"))
              (ThrownError "User rejected") (Sample.ledger []) (Sample.state [] [])
              (or_introl eq_refl))
    as ((_ & Hsend & _) & _ & Hmark).
  split; [exact Hsend | exact Hmark].
Defined.

(** C9, as stated, fails: a [markAsRead] whose submission is rejected sets
    no error state, while the same rejection of a [sendMessage] does. *)
Lemma markAsRead_failure_not_surfaced :
  let st := Sample.state [] [] in
  let rejected := SubmissionRejected (ThrownError "User rejected") in
  chatError (markAsRead (Some Sample.me) "0xa" 3 rejected (Sample.ledger []) st).2
  = None
  /\ chatError (sendMessage (Some Sample.me) "0xa" "hi" 1 2 rejected
                  (Sample.ledger []) st).2
     = Some "User rejected".
Proof. split; reflexivity. Qed.

(** ** Timestamps as strings: [toString] and [parseInt] *)

Lemma parseDigits_numeral d acc :
  parseDigits 10 (Some acc) (NilEmpty.string_of_uint d) = Some (digits_value d acc).
Proof. revert acc. induction d; intros acc; simpl; try done; by rewrite IHd. Qed.

Lemma digits_value_pos d (acc : positive) :
  digits_value d (Z.pos acc) = Z.pos (Pos.of_uint_acc d acc).
Proof.
  revert acc. induction d; intros acc; simpl; try done.
  all: rewrite <- IHd; f_equal; lia.
Qed.

Lemma digits_value_0 d : digits_value d 0 = Z.of_N (Pos.of_uint d).
Proof.
  induction d; simpl; try done.
  all: by rewrite <- digits_value_pos.
Qed.

Lemma digits_value_to_uint p : digits_value (Pos.to_uint p) 0 = Z.pos p.
Proof. by rewrite digits_value_0, Unsigned.of_to. Qed.

Lemma parseInt_numeral d :
  d <> Decimal.Nil -> parseInt (NilEmpty.string_of_uint d) = Num (digits_value d 0).
Proof.
  intros Hd. destruct d as [|d|d|d|d|d|d|d|d|d|d]; [done|..].
  1: destruct d.
  all: unfold parseInt; cbn [NilEmpty.string_of_uint trimStart isWhiteSpace].
  all: simpl; rewrite ?parseDigits_numeral.
  all: by rewrite Z.mul_1_l.
Qed.

Lemma parseInt_negative_numeral d :
  d <> Decimal.Nil ->
  parseInt (String "-" (NilEmpty.string_of_uint d)) = Num (- digits_value d 0).
Proof.
  intros Hd. destruct d as [|d|d|d|d|d|d|d|d|d|d]; [done|..].
  1: destruct d.
  all: unfold parseInt; cbn [NilEmpty.string_of_uint trimStart isWhiteSpace].
  all: simpl; rewrite ?parseDigits_numeral.
  all: f_equal; lia.
Qed.

Lemma string_of_uint_nonnil d :
  d <> Decimal.Nil -> NilZero.string_of_uint d = NilEmpty.string_of_uint d.
Proof. by destruct d. Qed.

Lemma parseInt_string_of_int (n : Z) : parseInt (toString n) = Num n.
Proof.
  unfold toString. destruct n as [|p|p]; [reflexivity| |].
  - pose proof (Unsigned.to_uint_nonnil p) as Hnil.
    cbn [Z.to_int NilZero.string_of_int].
    rewrite string_of_uint_nonnil, parseInt_numeral by done.
    by rewrite digits_value_to_uint.
  - pose proof (Unsigned.to_uint_nonnil p) as Hnil.
    cbn [Z.to_int NilZero.string_of_int].
    rewrite string_of_uint_nonnil, parseInt_negative_numeral by done.
    by rewrite digits_value_to_uint.
Qed.

(** X1. For a safe integer, the range of [Date.now()], reading back with
    [parseInt] the decimal string that [toString] gives returns that
    integer; it never yields [NaN]. *)
Theorem parseInt_toString (n : Z) :
  safe_integer n -> parseInt (toString n) = Num n.
Proof. intros _. exact (parseInt_string_of_int n). Qed.

Lemma parseInt_toString_sample :
  parseInt (toString 1700000000000) = Num 1700000000000.
Proof.
  apply (parseInt_toString 1700000000000). unfold safe_integer. lia.
Defined.

(** ** More on the chat-list merge and the refresh cycle *)

Lemma filter_chatId (ids : list string) (prevChats : list (obj ChatWithMetadata.t)) :
  chatId <$> filter (fun chat => chatId chat ∉ (list_to_set ids : gset string)) prevChats
  = filter (fun id => id ∉ ids) (chatId <$> prevChats).
Proof.
  induction prevChats as [|c prevChats IH]; [done|].
  rewrite fmap_cons, !filter_cons.
  destruct (decide (chatId c ∉ ids)) as [Hc|Hc].
  - rewrite decide_True by (by rewrite elem_of_list_to_set).
    by rewrite fmap_cons, IH.
  - rewrite decide_False by (by rewrite elem_of_list_to_set).
    done.
Qed.

Lemma mergeChats_chatIds (chatsWithMetadata prevChats : list (obj ChatWithMetadata.t)) :
  chatId <$> mergeChats chatsWithMetadata prevChats
  = ((chatId <$> chatsWithMetadata)
     ++ filter (fun id => id ∉ chatId <$> chatsWithMetadata) (chatId <$> prevChats))%list.
Proof.
  destruct prevChats as [|p prevChats].
  - simpl. by rewrite app_nil_r.
  - rewrite mergeChats_nonempty by done.
    by rewrite fmap_app, chatId_merged, filter_chatId.
Qed.

(** X2. The ids of the merged chat list are the ids of the fetched batch in
    the order of the batch, followed by the held ids that the batch does not
    have, in the order they were held. *)
Theorem mergeChats_ids (chatsWithMetadata prevChats : list (obj ChatWithMetadata.t)) :
  chatId <$> mergeChats chatsWithMetadata prevChats
  = ((chatId <$> chatsWithMetadata)
     ++ filter (fun id => id ∉ chatId <$> chatsWithMetadata) (chatId <$> prevChats))%list.
Proof. exact (mergeChats_chatIds chatsWithMetadata prevChats). Qed.

Lemma mergeChats_elem_of_obj chatsWithMetadata prevChats c :
  c ∈ mergeChats chatsWithMetadata prevChats ->
  c ∈ prevChats \/ c ∈ chatsWithMetadata.
Proof.
  destruct prevChats as [|p prevChats]; [by right|].
  rewrite mergeChats_nonempty by done. intros Hin.
  apply elem_of_app in Hin as [Hin|Hin].
  - apply list_elem_of_fmap in Hin as (newChat & -> & Hin). unfold mergeChat.
    destruct (existingChatsMap _ !! _) as [existingChat|] eqn:E; [|by right].
    destruct (hasChanged _ _); [by right|].
    left. by apply existingChatsMap_Some in E as [? _].
  - left. by apply list_elem_of_filter in Hin as [_ ?].
Qed.

Lemma validChats_ids_sublist address ledger data :
  sublist (ChatObject.id <$> validChats address ledger data) (chat_id <$> data).
Proof.
  unfold validChats. induction data as [|event data IH]; [constructor|].
  rewrite fmap_cons. cbn [omap list_omap].
  destruct (fetchChatObject address ledger event) as [chat|] eqn:E.
  - rewrite fmap_cons.
    assert (ChatObject.id chat = chat_id event) as ->; [|by constructor].
    unfold fetchChatObject in E.
    destruct (getObject ledger (chat_id event)) as [?|[fields|]]; try discriminate.
    destruct (_ || _); [|discriminate]. by injection E as <-.
  - by constructor.
Qed.

Lemma deriveChats_chatIds address ledger data next :
  chatId <$> deriveChats address ledger data next
  = ChatObject.id <$> validChats address ledger data.
Proof. unfold deriveChats. by rewrite chatId_allocate, <- list_fmap_compose. Qed.

(** X3. One summary per chat id is an invariant of the refresh: when the
    held chat ids are distinct and so are the chat ids of the events of the
    page, the chat ids held after the refresh are distinct. *)
Theorem fetchChats_NoDup (address : string) (silent : bool) (ledger : Ledger)
    (st : State) :
  NoDup (chatId <$> chats st) ->
  NoDup (chat_id <$> take 50 (events ledger)) ->
  NoDup (chatId <$> chats (fetchChats (Some address) silent ledger st)).
Proof.
  intros Hheld Hpage. rewrite fetchChats_chats. unfold queryEvents.
  destruct (queryEvents_rejected ledger) as [err|]; [done|].
  destruct (take 50 (events ledger)) as [|event data] eqn:E; [constructor|].
  rewrite mergeChats_chatIds. apply NoDup_app. split; [|split].
  - rewrite deriveChats_chatIds.
    eapply sublist_NoDup; [exact Hpage|apply validChats_ids_sublist].
  - intros id Hin Hkept. by apply list_elem_of_filter in Hkept as [Hnot _].
  - by apply NoDup_filter.
Qed.

Lemma fetchChats_NoDup_sample :
  NoDup (chatId <$> chats
           (fetchChats (Some Sample.me) true
              (Sample.ledger [{| chat_id := "0xb" |}; {| chat_id := "0xa" |}])
              (Sample.state [Sample.heldA; Sample.heldB] []))).
Proof.
  apply fetchChats_NoDup.
  - by apply (bool_decide_unpack _).
  - by apply (bool_decide_unpack _).
Defined.

(** X4. A refresh only writes the chat list, its loading flag and the
    error: the open chat, its messages and the other flags are left as they
    were, whatever the account, the mode and the ledger. *)
Theorem fetchChats_frame (currentAccount : option string) (silent : bool)
    (ledger : Ledger) (st : State) :
  messages (fetchChats currentAccount silent ledger st) = messages st
  /\ currentChat (fetchChats currentAccount silent ledger st) = currentChat st
  /\ isCreatingChat (fetchChats currentAccount silent ledger st) = isCreatingChat st
  /\ isFetchingMessages (fetchChats currentAccount silent ledger st)
     = isFetchingMessages st
  /\ isSendingMessage (fetchChats currentAccount silent ledger st)
     = isSendingMessage st.
Proof.
  unfold fetchChats. destruct currentAccount as [address|]; [|done].
  destruct (queryEvents ledger 50) as [err|[|event data]], silent; repeat split.
Qed.

Lemma fetchChats_flag_and_error (address : string) (silent : bool) (ledger : Ledger)
    (st : State) :
  isFetchingChats (fetchChats (Some address) silent ledger st)
  = (if silent then isFetchingChats st else false)
  /\ chatError (fetchChats (Some address) silent ledger st)
     = (fun err => errorMsg err "Failed to fetch chats") <$> queryEvents_rejected ledger.
Proof.
  unfold fetchChats, queryEvents.
  destruct (queryEvents_rejected ledger) as [err|]; [by destruct silent|].
  destruct (take 50 (events ledger)) as [|event data], silent; by split.
Qed.

(** X5. With a connected account, a silent refresh never touches the
    loading flag and any other refresh ends with it cleared; and the error
    after the refresh is the message of the rejected event query, or none
    when the query was answered, whatever error was shown before and
    whatever the per-chat fetches did. *)
Theorem fetchChats_flags (address : string) (silent : bool) (ledger : Ledger)
    (st : State) :
  isFetchingChats (fetchChats (Some address) silent ledger st)
  = (if silent then isFetchingChats st else false)
  /\ chatError (fetchChats (Some address) silent ledger st)
     = (fun err => errorMsg err "Failed to fetch chats") <$> queryEvents_rejected ledger.
Proof. exact (fetchChats_flag_and_error address silent ledger st). Qed.

Lemma deriveChats_involves address ledger data next c :
  c ∈ deriveChats address ledger data next -> involves address c.
Proof.
  unfold deriveChats. intros Hin. apply list_elem_of_lookup in Hin as [i Hi].
  rewrite allocate_lookup, list_lookup_fmap in Hi.
  destruct (validChats address ledger data !! i) as [chat|] eqn:E; [|done].
  injection Hi as <-. apply list_elem_of_lookup_2 in E.
  unfold validChats in E. apply list_elem_of_omap in E as (event & _ & Hsome).
  unfold fetchChatObject in Hsome.
  destruct (getObject ledger (chat_id event)) as [?|[fields|]]; try discriminate.
  destruct (bool_decide _ || bool_decide _) eqn:Hp; [|discriminate].
  injection Hsome as <-. unfold involves. simpl.
  apply orb_true_iff in Hp as [Hp|Hp]; apply bool_decide_eq_true in Hp; auto.
Qed.

(** X6. The refresh keeps the list to the chats of the current user: when
    every held summary has the user as one of its two participants, so has
    every summary held after the refresh, even if the event query returns
    chats of other users. *)
Theorem fetchChats_involves (address : string) (silent : bool) (ledger : Ledger)
    (st : State) :
  Forall (involves address) (chats st) ->
  Forall (involves address) (chats (fetchChats (Some address) silent ledger st)).
Proof.
  intros Hheld. rewrite fetchChats_chats.
  destruct (queryEvents ledger 50) as [err|[|event data]]; [done|constructor|].
  apply Forall_forall. intros c Hc.
  apply mergeChats_elem_of_obj in Hc as [Hc|Hc].
  - by eapply Forall_forall in Hheld.
  - by eapply deriveChats_involves.
Qed.

Lemma fetchChats_involves_sample :
  Forall (involves Sample.me)
    (chats (fetchChats (Some Sample.me) true
              (Sample.ledger [{| chat_id := "0xa" |}; {| chat_id := "0xzz" |}])
              (Sample.state [Sample.heldB] []))).
Proof.
  apply fetchChats_involves.
  repeat constructor.
Defined.

Lemma validChats_app address ledger data1 data2 :
  validChats address ledger (data1 ++ data2)
  = (validChats address ledger data1 ++ validChats address ledger data2)%list.
Proof. unfold validChats. apply omap_app. Qed.

(** X7. A chat whose object cannot be fetched (the fetch is rejected, or
    the object is not a Move object) or that the user is not part of is
    skipped: the batch of the cycle is the one the other events give, and no
    exception reaches the refresh. *)
Theorem deriveChats_skips (address : string) (ledger : Ledger)
    (before after : list Event) (event : Event) (next : nat) :
  (exists err, getObject ledger (chat_id event) = GetObjectThrows err)
  \/ getObject ledger (chat_id event) = GetObjectReturns None
  \/ (exists fields, getObject ledger (chat_id event) = GetObjectReturns (Some fields)
        /\ Fields.participant_1 fields <> address
        /\ Fields.participant_2 fields <> address) ->
  deriveChats address ledger (before ++ event :: after) next
  = deriveChats address ledger (before ++ after) next.
Proof.
  intros Hskip. unfold deriveChats. rewrite !validChats_app.
  assert (Hnone : fetchChatObject address ledger event = None).
  { unfold fetchChatObject.
    destruct Hskip as [[err ->]|[->|(fields & -> & H1 & H2)]]; try done.
    by rewrite !bool_decide_false. }
  unfold validChats at 2. cbn [omap list_omap]. by rewrite Hnone.
Qed.

Lemma deriveChats_skips_sample :
  deriveChats Sample.me (Sample.ledger [])
    ([{| chat_id := "0xa" |}] ++ {| chat_id := "0xzz" |} :: [{| chat_id := "0xb" |}]) 7
  = deriveChats Sample.me (Sample.ledger [])
      ([{| chat_id := "0xa" |}] ++ [{| chat_id := "0xb" |}]) 7.
Proof.
  apply deriveChats_skips. right. left. reflexivity.
Defined.

Lemma fetchChats_lists_discovered (address : string) (silent : bool) (ledger : Ledger)
    (st : State) (event : Event) (fields : Fields.t) :
  queryEvents_rejected ledger = None ->
  event ∈ take 50 (events ledger) ->
  getObject ledger (chat_id event) = GetObjectReturns (Some fields) ->
  Fields.participant_1 fields = address \/ Fields.participant_2 fields = address ->
  chat_id event ∈ chatId <$> chats (fetchChats (Some address) silent ledger st).
Proof.
  intros Hrej Hev Hget Hpart. rewrite fetchChats_chats. unfold queryEvents. rewrite Hrej.
  destruct (take 50 (events ledger)) as [|event' data] eqn:E;
    [by apply elem_of_nil in Hev|].
  rewrite mergeChats_chatIds. apply elem_of_app. left.
  rewrite deriveChats_chatIds. apply list_elem_of_fmap.
  assert (Hsome : is_Some (fetchChatObject address ledger event)).
  { unfold fetchChatObject. rewrite Hget.
    destruct Hpart as [H|H]; rewrite H;
      rewrite (bool_decide_true (address = address)) by done;
      rewrite ?orb_true_r; simpl; by eexists. }
  destruct Hsome as [chat Hchat]. exists chat. split.
  - unfold fetchChatObject in Hchat. rewrite Hget in Hchat.
    destruct (_ || _); [|discriminate]. by injection Hchat as <-.
  - unfold validChats. apply list_elem_of_omap. by exists event.
Qed.

(** X8. Discovery is complete inside the window: when the event query is
    answered, a chat created by one of the first 50 events whose object is
    fetched and has the user as a participant is in the chat list after the
    refresh, whatever was held before. *)
Theorem fetchChats_discovers (address : string) (silent : bool) (ledger : Ledger)
    (st : State) (event : Event) (fields : Fields.t) :
  queryEvents_rejected ledger = None ->
  event ∈ take 50 (events ledger) ->
  getObject ledger (chat_id event) = GetObjectReturns (Some fields) ->
  Fields.participant_1 fields = address \/ Fields.participant_2 fields = address ->
  chat_id event ∈ chatId <$> chats (fetchChats (Some address) silent ledger st).
Proof. exact (fetchChats_lists_discovered address silent ledger st event fields). Qed.

Lemma fetchChats_discovers_sample :
  "0xa" ∈ chatId <$> chats (fetchChats (Some Sample.me) true
            (Sample.ledger [{| chat_id := "0xb" |}; {| chat_id := "0xa" |}])
            (Sample.state [] [])).
Proof.
  apply (fetchChats_discovers Sample.me true
           (Sample.ledger [{| chat_id := "0xb" |}; {| chat_id := "0xa" |}])
           (Sample.state [] []) {| chat_id := "0xa" |}
           (Sample.fields "0xa"
              [Sample.message Sample.peer "10" true;
               Sample.message Sample.me "20" false;
               Sample.message Sample.peer "30" false])).
  - reflexivity.
  - repeat constructor.
  - reflexivity.
  - by left.
Defined.

(** X9. A [startChat] whose transaction is finalized returns the id found
    in the transaction's events after a refresh that is not silent: the
    chat list is the one [fetchChats] leaves, both busy flags are cleared,
    and the new chat is listed when its creation event is among the first
    50 and its object is fetched with the user as a participant. *)
Theorem startChat_lists_new_chat (address otherUserAddress digest : string)
    (ledger : Ledger) (st : State) (event : Event) (fields : Fields.t) :
  queryEvents_rejected ledger = None ->
  event ∈ take 50 (events ledger) ->
  getObject ledger (chat_id event) = GetObjectReturns (Some fields) ->
  Fields.participant_1 fields = address \/ Fields.participant_2 fields = address ->
  let r := startChat (Some address) otherUserAddress (Finalized digest)
             (Some (chat_id event)) ledger st in
  r.1 = Some (Some (chat_id event))
  /\ chats r.2 = chats (fetchChats (Some address) false ledger st)
  /\ chat_id event ∈ chatId <$> chats r.2
  /\ isCreatingChat r.2 = false
  /\ isFetchingChats r.2 = false
  /\ chatError r.2 = None.
Proof.
  intros Hrej Hev Hget Hpart r.
  assert (Hchats : chats r.2 = chats (fetchChats (Some address) false ledger st)).
  { subst r. unfold startChat, fetchChats. cbn [snd].
    by destruct (queryEvents ledger 50) as [err|[|event' data]]. }
  split; [done|]. split; [done|]. split.
  - rewrite Hchats. by eapply fetchChats_lists_discovered.
  - subst r. unfold startChat. cbn [snd].
    pose proof (fetchChats_flag_and_error address false ledger
                  (setChatError None (setIsCreatingChat true st))) as [Hflag Herr].
    rewrite Hrej in Herr. repeat split; try done.
Qed.

Lemma startChat_lists_new_chat_sample :
  "0xa" ∈ chatId <$> chats
    (startChat (Some Sample.me) Sample.peer (Finalized "digest") (Some "0xa")
       (Sample.ledger [{| chat_id := "0xa" |}]) (Sample.state [] [])).2.
Proof.
  pose proof (startChat_lists_new_chat Sample.me Sample.peer "digest"
                (Sample.ledger [{| chat_id := "0xa" |}]) (Sample.state [] [])
                {| chat_id := "0xa" |}
                (Sample.fields "0xa"
                   [Sample.message Sample.peer "10" true;
                    Sample.message Sample.me "20" false;
                    Sample.message Sample.peer "30" false])
                eq_refl ltac:(repeat constructor) eq_refl (or_introl eq_refl))
    as (_ & _ & Hin & _).
  exact Hin.
Defined.

(** ** More on the open chat *)

Lemma transformMessages_flatten (next : nat) (raws : list (obj raw_message)) :
  val <$> transformMessages next raws = (fun raw => flatten (val raw)) <$> raws
  /\ length (transformMessages next raws) = length raws.
Proof.
  assert (Hval : val <$> transformMessages next raws
                 = (fun raw => flatten (val raw)) <$> raws).
  { revert next. induction raws as [|raw raws IH]; intros next; [done|].
    cbn [transformMessages]. rewrite !fmap_cons, IH.
    by destruct (val raw). }
  split; [done|].
  by rewrite <- (length_fmap val), Hval, length_fmap.
Qed.

(** X10. Flattening the fetched messages keeps their number, their order
    and their fields: the transformed list carries, position by position,
    the message behind each raw message. *)
Theorem transformMessages_val (next : nat) (raws : list (obj raw_message)) :
  val <$> transformMessages next raws = (fun raw => flatten (val raw)) <$> raws
  /\ length (transformMessages next raws) = length raws.
Proof. exact (transformMessages_flatten next raws). Qed.

Lemma fetchMessages_cases (address chatId : string) (silent : bool)
    (ledger : Ledger) (st : State) :
  messages (fetchMessages (Some address) chatId silent ledger st)
  = match getObject ledger chatId with
    | GetObjectReturns (Some fields) =>
        transformMessages (heap_next st) (default [] (Fields.messages fields))
    | _ => []
    end
  /\ chatError (fetchMessages (Some address) chatId silent ledger st)
     = match getObject ledger chatId with
       | GetObjectThrows err => Some (errorMsg err "Failed to fetch chat")
       | _ => None
       end
  /\ chats (fetchMessages (Some address) chatId silent ledger st) = chats st
  /\ isFetchingMessages (fetchMessages (Some address) chatId silent ledger st)
     = (if silent then isFetchingMessages st else false).
Proof.
  unfold fetchMessages, getChatById.
  destruct (getObject ledger chatId) as [err|[fields|]], silent; repeat split.
Qed.

(** X11. [fetchMessages] replaces the held messages by the fetched chat's
    messages; when the chat object cannot be had (the fetch is rejected or
    the object is not a Move object) it empties the held messages, and it
    sets the error only for a rejected fetch.  The chat list is not
    touched, and the loading flag ends cleared unless the call is silent. *)
Theorem fetchMessages_outcome (address chatId : string) (silent : bool)
    (ledger : Ledger) (st : State) :
  messages (fetchMessages (Some address) chatId silent ledger st)
  = match getObject ledger chatId with
    | GetObjectReturns (Some fields) =>
        transformMessages (heap_next st) (default [] (Fields.messages fields))
    | _ => []
    end
  /\ chatError (fetchMessages (Some address) chatId silent ledger st)
     = match getObject ledger chatId with
       | GetObjectThrows err => Some (errorMsg err "Failed to fetch chat")
       | _ => None
       end
  /\ chats (fetchMessages (Some address) chatId silent ledger st) = chats st
  /\ isFetchingMessages (fetchMessages (Some address) chatId silent ledger st)
     = (if silent then isFetchingMessages st else false).
Proof. exact (fetchMessages_cases address chatId silent ledger st). Qed.

(** X12. After a send whose transaction is finalized the held messages
    are what the refetch of the chat gives, and the optimistic entry is not
    kept beside them: the ledger's messages in the ledger's order when the
    chat object is fetched, none when it cannot be had; the error is set
    only when the refetch is rejected.  The call returns the digest, clears
    both flags and leaves the chat list as it was. *)
Theorem sendMessage_success (address chatId message digest : string)
    (now_hash now_sent : Z) (ledger : Ledger) (st : State) :
  let r := sendMessage (Some address) chatId message now_hash now_sent
             (Finalized digest) ledger st in
  r.1 = Some digest
  /\ val <$> messages r.2
     = match getObject ledger chatId with
       | GetObjectReturns (Some fields) =>
           (fun raw => flatten (val raw)) <$> default [] (Fields.messages fields)
       | _ => []
       end
  /\ chatError r.2
     = match getObject ledger chatId with
       | GetObjectThrows err => Some (errorMsg err "Failed to fetch chat")
       | _ => None
       end
  /\ isSendingMessage r.2 = false
  /\ isFetchingMessages r.2 = false
  /\ chats r.2 = chats st.
Proof.
  intros r. subst r. unfold sendMessage, sendMessage_settle. cbn [fst snd].
  pose proof (fetchMessages_cases address chatId false ledger
                (sendMessage_begin address message now_hash now_sent st))
    as (Hm & He & Hc & Hf).
  repeat split; try done.
  cbn [messages setIsSendingMessage]. rewrite Hm.
  destruct (getObject ledger chatId) as [err|[fields|]]; [done| |done].
  apply transformMessages_flatten.
Qed.

Example sendMessage_success_sample :
  val <$> messages
    (sendMessage (Some Sample.me) "0xb" "hi" 1 2 (Finalized "digest")
       (Sample.ledger []) (Sample.state [] [Obj 0 (Sample.message Sample.peer "9" true)])).2
  = [].
Proof. reflexivity. Qed.

(** X13. After a send that fails, the held messages are the messages held
    before the call without those that carry the provisional timestamp: no
    message with that timestamp is left, every message left was held
    before, the chat list is untouched and the call returns [null]. *)
Theorem sendMessage_failure_filters (address chatId message : string)
    (now_hash now_sent : Z) (outcome : submission) (err : thrown)
    (ledger : Ledger) (st : State) :
  outcome = SubmissionRejected err \/ outcome = FinalityFailed err ->
  let r := sendMessage (Some address) chatId message now_hash now_sent
             outcome ledger st in
  r.1 = None
  /\ messages r.2 = filter (fun msg => sentAt msg <> toString now_sent) (messages st)
  /\ (forall msg, msg ∈ messages r.2 -> sentAt msg <> toString now_sent)
  /\ chats r.2 = chats st.
Proof.
  intros Hout r.
  assert (Hm : messages r.2
               = filter (fun msg => sentAt msg <> toString now_sent) (messages st)).
  { assert (Hf : filter (fun msg => sentAt msg <> toString now_sent)
                   (messages (sendMessage_begin address message now_hash now_sent st))
                 = filter (fun msg => sentAt msg <> toString now_sent) (messages st)).
    { simpl. rewrite filter_app.
      rewrite filter_cons_False by (intros H; by apply H). apply app_nil_r. }
    subst r. by destruct Hout as [-> | ->]. }
  split; [subst r; by destruct Hout as [-> | ->]|].
  split; [done|]. split.
  - intros msg Hin. rewrite Hm in Hin. by apply list_elem_of_filter in Hin as [? _].
  - subst r. by destruct Hout as [-> | ->].
Qed.

Lemma sendMessage_failure_filters_sample :
  messages
    (sendMessage (Some Sample.me) "0xa" "hi" 1 2
       (FinalityFailed ThrownOther) (Sample.ledger [])
       (Sample.state [] [Obj 0 (Sample.message Sample.peer "2" true);
                         Obj 1 (Sample.message Sample.peer "3" true)])).2
  = [Obj 1 (Sample.message Sample.peer "3" true)].
Proof.
  pose proof (sendMessage_failure_filters Sample.me "0xa" "hi" 1 2
                (FinalityFailed ThrownOther) ThrownOther (Sample.ledger [])
                (Sample.state [] [Obj 0 (Sample.message Sample.peer "2" true);
                                  Obj 1 (Sample.message Sample.peer "3" true)])
                (or_intror eq_refl)) as (_ & Hm & _).
  exact Hm.
Defined.

Lemma sendMessage_failure_restores_sample :
  messages
    (sendMessage (Some Sample.me) "0xa" "hi" 1 2
       (SubmissionRejected (ThrownError "User rejected")) (Sample.ledger [])
       (Sample.state [] [Obj 0 (Sample.message Sample.peer "1" true)])).2
  = [Obj 0 (Sample.message Sample.peer "1" true)].
Proof.
  apply (sendMessage_failure_restores Sample.me "0xa" "hi" 1 2
           (SubmissionRejected (ThrownError "User rejected"))
           (ThrownError "User rejected") (Sample.ledger [])
           (Sample.state [] [Obj 0 (Sample.message Sample.peer "1" true)])).
  - by left.
  - intros msg Hin. apply list_elem_of_singleton in Hin as ->. discriminate.
Defined.

(** X14. Whatever list the interval callback captured, a poll leaves as
    held messages either the fetched list or the list held at that moment,
    never the captured one, and it writes nothing but the messages. *)
Theorem pollMessages_result (closure fetched : list (obj Message.t)) (st : State) :
  (messages (pollMessages closure fetched st) = fetched
   \/ messages (pollMessages closure fetched st) = messages st)
  /\ chats (pollMessages closure fetched st) = chats st
  /\ chatError (pollMessages closure fetched st) = chatError st
  /\ currentChat (pollMessages closure fetched st) = currentChat st
  /\ isFetchingMessages (pollMessages closure fetched st) = isFetchingMessages st
  /\ isSendingMessage (pollMessages closure fetched st) = isSendingMessage st.
Proof.
  unfold pollMessages. destruct (_ || _); [|by repeat split; right].
  repeat split. cbn [messages setMessages]. unfold mergeMessages.
  destruct (negb _); [by left|]. destruct (hasChanges _ _); [by left|by right].
Qed.

(** X15. The updater checks the fetched list against the messages held
    when it runs: if they have the same length and the same
    [sent_timestamp] at every index, the held messages stay, even when the
    callback captured an older list that differs from the fetched one. *)
Theorem pollMessages_rechecks_state (closure fetched : list (obj Message.t))
    (st : State) :
  length fetched = length (messages st) ->
  (forall i, sentAt <$> fetched !! i = sentAt <$> messages st !! i) ->
  messages (pollMessages closure fetched st) = messages st.
Proof.
  intros Hlen Hall. unfold pollMessages. destruct (_ || _); [|done].
  cbn [messages setMessages]. unfold mergeMessages.
  rewrite Hlen, Nat.eqb_refl. simpl.
  assert (Hno : hasChanges fetched (messages st) = false); [|by rewrite Hno].
  unfold hasChanges. apply some_false. intros i x Hx. simpl.
  specialize (Hall i). rewrite Hx in Hall.
  destruct (messages st !! i) as [prevMsg|]; [|done].
  simpl in Hall. injection Hall as Hall.
  by apply bool_decide_eq_false; intros H; apply H.
Qed.

Lemma pollMessages_rechecks_state_sample :
  messages
    (pollMessages [Obj 0 (Sample.message Sample.peer "1" true)]
       [Obj 5 (Sample.message Sample.peer "1" true);
        Obj 6 (Sample.message Sample.me "2" false)]
       (Sample.state [] [Obj 0 (Sample.message Sample.peer "1" true);
                         Obj 1 (Sample.message Sample.me "2" false)]))
  = [Obj 0 (Sample.message Sample.peer "1" true);
     Obj 1 (Sample.message Sample.me "2" false)].
Proof.
  apply (pollMessages_rechecks_state
           [Obj 0 (Sample.message Sample.peer "1" true)]
           [Obj 5 (Sample.message Sample.peer "1" true);
            Obj 6 (Sample.message Sample.me "2" false)]
           (Sample.state [] [Obj 0 (Sample.message Sample.peer "1" true);
                             Obj 1 (Sample.message Sample.me "2" false)])).
  - reflexivity.
  - intros [|[|i]]; reflexivity.
Defined.

(** X16. A tick of the open-chat poll that cannot get the chat object (no
    chat is open, no account is connected, the fetch is rejected, or the
    object is not a Move object) leaves the whole state as it is: the held
    messages stay and no error is set. *)
Theorem pollTick_failure_silent (openChat : option Chat.t)
    (currentAccount : option string) (closure : list (obj Message.t))
    (ledger : Ledger) (st : State) :
  openChat = None \/ currentAccount = None
  \/ (exists chat, openChat = Some chat
        /\ forall fields,
             getObject ledger (Chat.id chat) <> GetObjectReturns (Some fields)) ->
  pollTick openChat currentAccount closure ledger st = st.
Proof.
  intros [->|[->|(chat & -> & Hget)]]; [done|by destruct openChat|].
  unfold pollTick. destruct currentAccount; [|done].
  destruct (getObject ledger (Chat.id chat)) as [err|[fields|]]; try done.
  by destruct (Hget fields).
Qed.

Lemma pollTick_failure_silent_sample :
  let chat := {| Chat.id := "0xzz"; Chat.participant_1 := Sample.me;
                 Chat.participant_2 := Sample.peer; Chat.messages := [];
                 Chat.created_at := "1" |} in
  let st := Sample.state [] [Obj 0 (Sample.message Sample.peer "1" true)] in
  pollTick (Some chat) (Some Sample.me) (messages st) (Sample.ledger []) st = st.
Proof.
  intros chat st. apply pollTick_failure_silent.
  right. right. exists chat. split; [done|]. intros fields. discriminate.
Defined.

Lemma stripBOM_without message :
  (forall rest, message <> BOM_string ++ rest) ->
  stripBOM (list_byte_of_string message) = list_byte_of_string message.
Proof.
  intros Hno.
  destruct (list_byte_of_string message) as [|b1 bytes] eqn:E; [done|].
  destruct b1; try done. destruct bytes as [|b2 bytes]; [done|].
  destruct b2; try done. destruct bytes as [|b3 rest]; [done|].
  destruct b3; try done.
  destruct (Hno (string_of_list_byte rest)).
  by rewrite <- (string_of_list_byte_of_string message), E.
Qed.

Lemma decode_encode_without message :
  (forall rest, message <> BOM_string ++ rest) -> decode (encode message) = message.
Proof.
  intros Hno. unfold decode, encode.
  by rewrite stripBOM_without, string_of_list_byte_of_string.
Qed.

Lemma decode_encode_BOM rest : decode (encode (BOM_string ++ rest)) = rest.
Proof.
  unfold decode, encode.
  assert (Hbytes : list_byte_of_string (BOM_string ++ rest)
                   = (BOM ++ list_byte_of_string rest)%list) by reflexivity.
  rewrite Hbytes. cbn [BOM app stripBOM]. apply string_of_list_byte_of_string.
Qed.

(** X17. With a clock reading that is a safe integer and a typed text that
    is well-formed (no lone surrogate), the message a send appends
    optimistically is shown with the current user as sender, the clock
    reading as timestamp and its decimal string as id, unread; its text is
    the text that was typed when that does not start with a byte order
    mark, and the text after the mark when it does. *)
Theorem optimistic_message_view (address message : string) (now_hash now_sent : Z)
    (st : State) :
  safe_integer now_sent ->
  utf8_well_formed (encode message) = true ->
  (forall text,
     (forall rest, message <> BOM_string ++ rest) /\ text = message
     \/ message = BOM_string ++ text ->
     last (messageView
           <$> messages (sendMessage_begin address message now_hash now_sent st))
     = Some {| MessageView.id := toString now_sent;
               MessageView.sender := address;
               MessageView.text := text;
               MessageView.timestamp := Num now_sent;
               MessageView.is_read := false |}).
Proof.
  intros _ _ text Htext. unfold sendMessage_begin. cbn [messages setMessages].
  rewrite fmap_app, fmap_cons, fmap_nil, last_snoc.
  unfold messageView, optimisticMessage. cbn [val Message.sent_timestamp
    Message.sender Message.encrypted_message Message.is_read].
  rewrite parseInt_string_of_int. do 3 f_equal.
  destruct Htext as [[Hno ->]| ->].
  - by apply decode_encode_without.
  - apply decode_encode_BOM.
Qed.

Lemma optimistic_message_view_sample :
  last (messageView
        <$> messages (sendMessage_begin Sample.me "hi" 1 1700000000000
                        (Sample.state [] [])))
  = Some {| MessageView.id := "1700000000000";
            MessageView.sender := Sample.me;
            MessageView.text := "hi";
            MessageView.timestamp := Num 1700000000000;
            MessageView.is_read := false |}.
Proof.
  apply (optimistic_message_view Sample.me "hi" 1 1700000000000 (Sample.state [] [])).
  - unfold safe_integer. lia.
  - reflexivity.
  - left. split; [|done]. intros rest. discriminate.
Defined.

Example utf8_well_formed_samples :
  utf8_well_formed (encode "hi") = true
  /\ utf8_well_formed (BOM ++ encode "hi") = true
  /\ utf8_well_formed [Byte.xed; Byte.xa0; Byte.x80] = false
  /\ utf8_well_formed [Byte.xc3; Byte.xa9] = true
  /\ utf8_well_formed [Byte.xc0; Byte.x80] = false.
Proof. repeat split. Qed.

(** ** The username cache *)

Lemma cachedName_None_nonempty cache user :
  names_nonempty cache -> cachedName cache user = None -> cache !! user = None.
Proof.
  intros Hne. unfold cachedName. destruct (cache !! user) as [name|] eqn:E; [|done].
  case_bool_decide as Hn; [|done]. by destruct (Hne user name E).
Qed.

Lemma cachedName_Some cache user name :
  cache !! user = Some name -> name <> "" -> cachedName cache user = Some name.
Proof. intros E Hn. unfold cachedName. rewrite E. by rewrite bool_decide_false. Qed.

(** What one iteration does: nothing, or it adds the username the profile
    service returned for a user that had no entry. *)
Lemma fetchUsername_cases currentAccount fetchProfileByAddress acc chat :
  names_nonempty acc.1 ->
  fetchUsername currentAccount fetchProfileByAddress acc chat = acc
  \/ exists username,
       fetchProfileByAddress (otherUser currentAccount (val chat))
       = ProfileReturns (Some username)
       /\ username <> ""
       /\ acc.1 !! otherUser currentAccount (val chat) = None
       /\ fetchUsername currentAccount fetchProfileByAddress acc chat
          = (<[otherUser currentAccount (val chat) := username]> acc.1, true).
Proof.
  intros Hne. unfold fetchUsername.
  destruct (cachedName acc.1 _) as [name|] eqn:Ec; [by left|].
  destruct (fetchProfileByAddress _) as [err|[username|]] eqn:Ep; [by left| |by left].
  case_bool_decide as Hu; [by left|].
  right. exists username. repeat split; try done.
  by apply cachedName_None_nonempty.
Qed.

Lemma names_nonempty_insert cache user name :
  names_nonempty cache -> name <> "" -> names_nonempty (<[user := name]> cache).
Proof.
  intros Hne Hn user' name' Hl. destruct (decide (user = user')) as [<-|Hneq].
  - rewrite lookup_insert_eq in Hl. by injection Hl as <-.
  - rewrite lookup_insert_ne in Hl by done. by eapply Hne.
Qed.

Lemma fetchUsername_nonempty currentAccount fetchProfileByAddress acc chat :
  names_nonempty acc.1 ->
  names_nonempty (fetchUsername currentAccount fetchProfileByAddress acc chat).1.
Proof.
  intros Hne.
  destruct (fetchUsername_cases currentAccount fetchProfileByAddress acc chat Hne)
    as [->|(username & _ & Hu & _ & ->)]; [done|].
  by apply names_nonempty_insert.
Qed.

(** The flag [updated] is only false while the cache is the captured one,
    so the cache the effect leaves is the one the loop built. *)
Lemma fetchUsernames_fold address fetchProfileByAddress chats usernameCache :
  names_nonempty usernameCache ->
  fetchUsernames (Some address) fetchProfileByAddress chats usernameCache
  = (foldl (fetchUsername (Some address) fetchProfileByAddress)
       (usernameCache, false) chats).1.
Proof.
  intros Hne. unfold fetchUsernames.
  assert (Hinv : forall l acc,
            names_nonempty acc.1 ->
            (acc.2 = false -> acc.1 = usernameCache) ->
            let r := foldl (fetchUsername (Some address) fetchProfileByAddress) acc l in
            names_nonempty r.1 /\ (r.2 = false -> r.1 = usernameCache)).
  { induction l as [|c l IH]; intros acc Hn Hacc; [done|]. simpl.
    apply IH; [by apply fetchUsername_nonempty|].
    destruct (fetchUsername_cases (Some address) fetchProfileByAddress acc c Hn)
      as [->|(username & _ & _ & _ & ->)]; [done|]. discriminate. }
  destruct chats as [|c chats]; [done|].
  change (0 <? length (c :: chats))%nat with true. cbn match.
  specialize (Hinv (c :: chats) (usernameCache, false) Hne (fun _ => eq_refl)).
  destruct (foldl _ _ _) as [newCache updated]. simpl in *.
  destruct updated; [done|]. symmetry. by apply Hinv.
Qed.

Lemma fetchUsername_subseteq currentAccount fetchProfileByAddress acc chat :
  names_nonempty acc.1 ->
  acc.1 ⊆ (fetchUsername currentAccount fetchProfileByAddress acc chat).1.
Proof.
  intros Hne.
  destruct (fetchUsername_cases currentAccount fetchProfileByAddress acc chat Hne)
    as [->|(username & _ & _ & Hnone & ->)]; [done|].
  by apply insert_subseteq.
Qed.

(** X18. The username cache only grows: when the captured cache holds no
    empty name, the cache the effect leaves holds none either and contains
    every entry of the captured cache unchanged. *)
Theorem fetchUsernames_monotone (currentAccount : option string)
    (fetchProfileByAddress : string -> profile_outcome)
    (chats : list (obj ChatWithMetadata.t)) (usernameCache : gmap string string) :
  names_nonempty usernameCache ->
  names_nonempty (fetchUsernames currentAccount fetchProfileByAddress chats usernameCache)
  /\ usernameCache
     ⊆ fetchUsernames currentAccount fetchProfileByAddress chats usernameCache.
Proof.
  intros Hne. destruct currentAccount as [address|]; [|done].
  rewrite fetchUsernames_fold by done.
  assert (Hinv : forall l acc,
            names_nonempty acc.1 ->
            let r := foldl (fetchUsername (Some address) fetchProfileByAddress) acc l in
            names_nonempty r.1 /\ acc.1 ⊆ r.1).
  { induction l as [|c l IH]; intros acc Hn; [done|]. simpl.
    destruct (IH (fetchUsername (Some address) fetchProfileByAddress acc c))
      as [Hn' Hsub]; [by apply fetchUsername_nonempty|].
    split; [done|]. etrans; [|exact Hsub]. by apply fetchUsername_subseteq. }
  apply (Hinv chats (usernameCache, false) Hne).
Qed.

(** X19. Every entry of the cache the effect leaves was in the captured
    cache or is the username the profile service returned for the other
    participant of one of the chats: a rejected or empty lookup adds no
    entry. *)
Theorem fetchUsernames_provenance (currentAccount : option string)
    (fetchProfileByAddress : string -> profile_outcome)
    (chats : list (obj ChatWithMetadata.t)) (usernameCache : gmap string string)
    (user name : string) :
  names_nonempty usernameCache ->
  fetchUsernames currentAccount fetchProfileByAddress chats usernameCache !! user
  = Some name ->
  usernameCache !! user = Some name
  \/ exists chat, chat ∈ chats
       /\ otherUser currentAccount (val chat) = user
       /\ fetchProfileByAddress user = ProfileReturns (Some name).
Proof.
  intros Hne. destruct currentAccount as [address|]; [|by left].
  rewrite fetchUsernames_fold by done.
  assert (Hinv : forall l acc,
            names_nonempty acc.1 ->
            (foldl (fetchUsername (Some address) fetchProfileByAddress) acc l).1 !! user
            = Some name ->
            acc.1 !! user = Some name
            \/ exists chat, chat ∈ l
                 /\ otherUser (Some address) (val chat) = user
                 /\ fetchProfileByAddress user = ProfileReturns (Some name)).
  { induction l as [|c l IH]; intros acc Hn Hl; [by left|]. simpl in Hl.
    apply IH in Hl as [Hl|(chat & Hin & Hother & Hp)];
      [|right; exists chat; split; [by right|done]|by apply fetchUsername_nonempty].
    destruct (fetchUsername_cases (Some address) fetchProfileByAddress acc c Hn)
      as [Heq|(username & Hp & _ & _ & Heq)]; rewrite Heq in Hl; [by left|].
    simpl in Hl. destruct (decide (otherUser (Some address) (val c) = user)) as [Hu|Hu].
    - rewrite Hu, lookup_insert_eq in Hl. injection Hl as <-.
      right. exists c. split; [by left|]. split; [done|]. by rewrite <- Hu.
    - rewrite lookup_insert_ne in Hl by done. by left. }
  apply (Hinv chats (usernameCache, false) Hne).
Qed.

Lemma fetchUsername_keeps currentAccount fetchProfileByAddress acc chat user name :
  names_nonempty acc.1 ->
  acc.1 !! user = Some name ->
  (fetchUsername currentAccount fetchProfileByAddress acc chat).1 !! user = Some name.
Proof.
  intros Hne Hl.
  pose proof (fetchUsername_subseteq currentAccount fetchProfileByAddress acc chat Hne).
  by eapply lookup_weaken.
Qed.

(** X20. After the effect ran with a connected account, a chat whose other
    participant had no entry and for whom the profile service returns a
    non-empty username has that username in the cache, and the chat is
    shown under that username, as display name and as handle. *)
Theorem fetchUsernames_resolves (address : string)
    (fetchProfileByAddress : string -> profile_outcome)
    (chats : list (obj ChatWithMetadata.t)) (usernameCache : gmap string string)
    (chat : obj ChatWithMetadata.t) (name : string) :
  names_nonempty usernameCache ->
  chat ∈ chats ->
  usernameCache !! otherUser (Some address) (val chat) = None ->
  fetchProfileByAddress (otherUser (Some address) (val chat))
  = ProfileReturns (Some name) ->
  name <> "" ->
  let newCache := fetchUsernames (Some address) fetchProfileByAddress chats usernameCache in
  newCache !! otherUser (Some address) (val chat) = Some name
  /\ ChatView.user (transformChat (Some address) newCache chat) = name
  /\ ChatView.handle (transformChat (Some address) newCache chat) = name.
Proof.
  intros Hne Hin Hnone Hp Hname newCache.
  set (user := otherUser (Some address) (val chat)) in *.
  set (F := fetchUsername (Some address) fetchProfileByAddress).
  assert (Hkeep : forall l acc,
            names_nonempty acc.1 -> acc.1 !! user = Some name ->
            (foldl F acc l).1 !! user = Some name).
  { induction l as [|c l IH]; intros acc Hn Hl; [done|]. simpl.
    apply IH; [by apply fetchUsername_nonempty|by apply fetchUsername_keeps]. }
  assert (Hreach : forall l acc,
            names_nonempty acc.1 ->
            acc.1 !! user = None \/ acc.1 !! user = Some name ->
            chat ∈ l -> (foldl F acc l).1 !! user = Some name).
  { induction l as [|c l IH]; intros acc Hn Hacc Hl; [by apply elem_of_nil in Hl|].
    simpl. pose proof (fetchUsername_nonempty (Some address) fetchProfileByAddress
                         acc c Hn) as Hn'.
    destruct (fetchUsername_cases (Some address) fetchProfileByAddress acc c Hn)
      as [Heq|(username & Hpc & Hu & Hnc & Heq)].
    - apply elem_of_cons in Hl as [<-|Hl].
      + apply Hkeep; [done|]. unfold F. rewrite Heq.
        destruct Hacc as [Hacc|Hacc]; [exfalso|done].
        unfold fetchUsername in Heq. fold user in Heq.
        unfold cachedName in Heq. rewrite Hacc, Hp in Heq.
        rewrite bool_decide_false in Heq by done.
        rewrite <- Heq in Hacc. simpl in Hacc.
        by rewrite lookup_insert_eq in Hacc.
      + apply IH; [done| |done]. unfold F. by rewrite Heq.
    - destruct (decide (otherUser (Some address) (val c) = user)) as [Hcu|Hcu].
      + apply Hkeep; [done|]. unfold F. rewrite Heq. simpl.
        rewrite Hcu, lookup_insert_eq. rewrite Hcu, Hp in Hpc. by injection Hpc as <-.
      + apply elem_of_cons in Hl as [->|Hl]; [done|].
        apply IH; [done| |done]. unfold F. rewrite Heq. simpl.
        by rewrite lookup_insert_ne.
  }
  assert (Hnew : newCache !! user = Some name).
  { subst newCache. rewrite fetchUsernames_fold by done.
    apply Hreach; [done|by left|done]. }
  split; [done|].
  unfold transformChat. cbn [ChatView.user ChatView.handle]. fold user.
  rewrite (cachedName_Some _ _ _ Hnew Hname). unfold or_else.
  by rewrite bool_decide_false.
Qed.

Lemma Directory_cache_nonempty : names_nonempty Directory.cache.
Proof.
  intros user name H. unfold Directory.cache in H.
  apply lookup_singleton_Some in H as [_ <-]. discriminate.
Qed.

Lemma fetchUsernames_monotone_sample :
  Directory.cache
  ⊆ fetchUsernames (Some Sample.me) Directory.profiles [Sample.heldA] Directory.cache.
Proof.
  apply (fetchUsernames_monotone (Some Sample.me) Directory.profiles [Sample.heldA]
           Directory.cache Directory_cache_nonempty).
Defined.

Lemma fetchUsernames_provenance_sample :
  Directory.cache !! Sample.peer = Some "alice"
  \/ exists chat, chat ∈ [Sample.heldA]
       /\ otherUser (Some Sample.me) (val chat) = Sample.peer
       /\ Directory.profiles Sample.peer = ProfileReturns (Some "alice").
Proof.
  apply (fetchUsernames_provenance (Some Sample.me) Directory.profiles [Sample.heldA]
           Directory.cache Sample.peer "alice" Directory_cache_nonempty).
  reflexivity.
Defined.

Lemma fetchUsernames_resolves_sample :
  ChatView.user
    (transformChat (Some Sample.me)
       (fetchUsernames (Some Sample.me) Directory.profiles
          [Sample.heldB; Sample.heldA] Directory.cache)
       Sample.heldA)
  = "alice".
Proof.
  pose proof (fetchUsernames_resolves Sample.me Directory.profiles
                [Sample.heldB; Sample.heldA] Directory.cache Sample.heldA "alice"
                Directory_cache_nonempty ltac:(repeat constructor) eq_refl eq_refl
                ltac:(discriminate)) as (_ & Huser & _).
  exact Huser.
Defined.

(** ** The views *)

(** X21. The list shown to the page has one entry per held summary, in the
    same order, with the summary's id and unread count; the username cache
    and the account only change the display name and the handle. *)
Theorem transformedChats_preserves (currentAccount currentAccount' : option string)
    (usernameCache usernameCache' : gmap string string)
    (chats : list (obj ChatWithMetadata.t)) :
  ChatView.id <$> transformedChats currentAccount usernameCache chats
  = chatId <$> chats
  /\ ChatView.unread <$> transformedChats currentAccount usernameCache chats
     = (fun chat => ChatWithMetadata.unreadCount (val chat)) <$> chats
  /\ ChatView.lastMsg <$> transformedChats currentAccount usernameCache chats
     = ChatView.lastMsg <$> transformedChats currentAccount' usernameCache' chats
  /\ ChatView.timestamp <$> transformedChats currentAccount usernameCache chats
     = ChatView.timestamp <$> transformedChats currentAccount' usernameCache' chats.
Proof.
  unfold transformedChats. rewrite <- !list_fmap_compose. by repeat split.
Qed.

(** X22. The time shown for a chat is the timestamp of its last message
    when that is a number other than zero, and the creation time otherwise
    (no last message, or a last timestamp that is zero or [NaN]), so it is a
    number whenever the creation time is one; the text shown is the last
    message's text when that is not empty, and "No messages yet" otherwise
    (no last message, or an empty text). *)
Theorem transformChat_fallbacks (currentAccount : option string)
    (usernameCache : gmap string string) (chat : obj ChatWithMetadata.t) :
  (forall z, lastTimestamp (val chat) = Some (Num z) -> z <> 0%Z ->
     ChatView.timestamp (transformChat currentAccount usernameCache chat) = Num z)
  /\ (lastTimestamp (val chat) = None
      \/ lastTimestamp (val chat) = Some (Num 0)
      \/ lastTimestamp (val chat) = Some NaN ->
      ChatView.timestamp (transformChat currentAccount usernameCache chat)
      = ChatWithMetadata.created_at (val chat))
  /\ (ChatWithMetadata.created_at (val chat) <> NaN ->
      ChatView.timestamp (transformChat currentAccount usernameCache chat) <> NaN)
  /\ (forall m, ChatWithMetadata.lastMessage (val chat) = Some m ->
        LastMessage.text m <> "" ->
        ChatView.lastMsg (transformChat currentAccount usernameCache chat)
        = LastMessage.text m)
  /\ (ChatWithMetadata.lastMessage (val chat) = None
      \/ (exists m, ChatWithMetadata.lastMessage (val chat) = Some m
            /\ LastMessage.text m = "") ->
      ChatView.lastMsg (transformChat currentAccount usernameCache chat)
      = "No messages yet").
Proof.
  unfold transformChat. cbn [ChatView.timestamp ChatView.lastMsg].
  split; [|split; [|split; [|split]]].
  - intros z -> Hz. simpl. by apply Z.eqb_neq in Hz as ->.
  - by intros [->|[->| ->]].
  - intros Hc. destruct (lastTimestamp (val chat)) as [[z|]|]; simpl; try done.
    by destruct (z =? 0)%Z.
  - intros m -> Hm. simpl. by rewrite bool_decide_false.
  - intros [->|(m & -> & Hm)]; [done|]. simpl. by rewrite Hm.
Qed.

Lemma transformChat_fallbacks_sample :
  ChatView.timestamp (transformChat (Some Sample.me) ∅ Sample.heldA) = Num 100.
Proof.
  apply (proj1 (transformChat_fallbacks (Some Sample.me) ∅ Sample.heldA) 100%Z).
  - reflexivity.
  - discriminate.
Defined.

Example transformChat_placeholder :
  let chat := Obj 0
    {| ChatWithMetadata.id := "0xc";
       ChatWithMetadata.participant_1 := "0xme";
       ChatWithMetadata.participant_2 := "0x1234567890abcdef";
       ChatWithMetadata.lastMessage := None;
       ChatWithMetadata.unreadCount := 0;
       ChatWithMetadata.created_at := Num 7 |} in
  transformChat (Some "0xme") ∅ chat
  = {| ChatView.id := "0xc";
       ChatView.user := "User 0x1234...cdef";
       ChatView.handle := "0x123456";
       ChatView.lastMsg := "No messages yet";
       ChatView.timestamp := Num 7;
       ChatView.unread := 0 |}.
Proof. reflexivity. Qed.

(** ** More on unread accounting *)

(** X23. The unread count of a derived summary is at most the number of
    messages of the chat, and it is zero exactly when every message was
    sent by the current user or is read. *)
Theorem unreadCount_zero_iff (address : string) (chat : ChatObject.t) :
  ChatWithMetadata.unreadCount (toMetadata address chat)
  <= length (ChatObject.messages chat)
  /\ (ChatWithMetadata.unreadCount (toMetadata address chat) = 0
      <-> forall m, m ∈ ChatObject.messages chat ->
            Message.sender m = address \/ Message.is_read m = true).
Proof.
  cbn [toMetadata ChatWithMetadata.unreadCount]. unfold unreadCountOf. split.
  - apply length_filter.
  - rewrite length_zero_iff_nil. split.
    + intros Hnil m Hm.
      destruct (decide (Message.sender m = address)) as [|Hs]; [by left|].
      destruct (Message.is_read m) eqn:Hr; [by right|].
      exfalso. eapply (filter_nil_not_elem_of _ _ m Hnil); [|done]. by split.
    + intros Hall. apply filter_none. intros m Hm [Hs Hr].
      destruct (Hall m Hm) as [?|Hr']; [done|]. by rewrite Hr in Hr'.
Qed.

(** X24. Marking as read one message that was counted (sent by the other
    participant, not read) lowers the unread count by exactly one, whatever
    its position. *)
Theorem unreadCountOf_mark_read (address : string) (msgs : list Message.t)
    (i : nat) (m m' : Message.t) :
  msgs !! i = Some m ->
  Message.sender m <> address ->
  Message.is_read m = false ->
  Message.sender m' = Message.sender m ->
  Message.is_read m' = true ->
  unreadCountOf address (<[i := m']> msgs) + 1 = unreadCountOf address msgs.
Proof.
  intros Hi Hs Hr Hs' Hr'. rewrite !unreadCountOf_unread_messages.
  revert i Hi. induction msgs as [|x msgs IH]; intros [|i] Hi; simpl in *; try done.
  - injection Hi as ->. rewrite Hs', Hr', Hr.
    rewrite bool_decide_false by done. lia.
  - rewrite <- (IH i Hi). lia.
Qed.

Lemma unreadCountOf_mark_read_sample :
  unreadCountOf Sample.me
    (<[2 := Sample.message Sample.peer "30" true]>
       [Sample.message Sample.peer "10" true; Sample.message Sample.me "20" false;
        Sample.message Sample.peer "30" false]) + 1
  = unreadCountOf Sample.me
      [Sample.message Sample.peer "10" true; Sample.message Sample.me "20" false;
       Sample.message Sample.peer "30" false].
Proof.
  apply (unreadCountOf_mark_read Sample.me _ 2 (Sample.message Sample.peer "30" false)).
  - reflexivity.
  - discriminate.
  - reflexivity.
  - reflexivity.
  - reflexivity.
Defined.

(** ** How the operations compose *)

(** X25. The operations on the open chat never write the chat list: after
    a send, a read receipt, a message fetch or a poll tick, whatever their
    outcome, the held summaries (preview, unread count) are the objects held
    before, until a refresh runs. *)
Theorem open_chat_operations_keep_chats (currentAccount : option string)
    (chatId message : string) (messageIndex : nat) (now_hash now_sent : Z)
    (outcome : submission) (silent : bool) (openChat : option Chat.t)
    (closure : list (obj Message.t)) (ledger : Ledger) (st : State) :
  chats (sendMessage currentAccount chatId message now_hash now_sent
           outcome ledger st).2 = chats st
  /\ chats (markAsRead currentAccount chatId messageIndex outcome ledger st).2
     = chats st
  /\ chats (fetchMessages currentAccount chatId silent ledger st) = chats st
  /\ chats (pollTick openChat currentAccount closure ledger st) = chats st.
Proof.
  assert (Hfetch : forall silent st,
            chats (fetchMessages currentAccount chatId silent ledger st) = chats st).
  { intros silent' st'. unfold fetchMessages, getChatById.
    destruct currentAccount; [|done].
    by destruct (getObject ledger chatId) as [err|[fields|]], silent'. }
  repeat split.
  - unfold sendMessage. destruct currentAccount as [address|]; [|done].
    unfold sendMessage_settle. destruct outcome; cbn [snd]; try done.
    all: cbn [chats setIsSendingMessage]; by rewrite Hfetch.
  - unfold markAsRead. destruct currentAccount as [address|]; [|done].
    destruct outcome; cbn [snd]; by try apply Hfetch.
  - apply Hfetch.
  - unfold pollTick. destruct openChat as [chat|], currentAccount; try done.
    destruct (getObject ledger (Chat.id chat)) as [err|[fields|]]; try done.
    unfold pollMessages. by destruct (_ || _).
Qed.

(** X26. Without a connected account nothing is fetched or sent: a
    refresh, a message fetch, a read receipt and a poll tick leave the state
    as it is and the username cache as it is, and [sendMessage] and
    [startChat] only set the error "Account not connected", with no
    optimistic message appended, and return [null]. *)
Theorem no_account_no_effect (chatId message otherUserAddress : string)
    (messageIndex : nat) (now_hash now_sent : Z) (outcome : submission)
    (created : option string) (silent : bool) (openChat : option Chat.t)
    (closure : list (obj Message.t)) (ledger : Ledger)
    (fetchProfileByAddress : string -> profile_outcome)
    (usernameCache : gmap string string) (st : State) :
  fetchChats None silent ledger st = st
  /\ fetchMessages None chatId silent ledger st = st
  /\ getChatById None chatId ledger st = (None, st)
  /\ markAsRead None chatId messageIndex outcome ledger st = (None, st)
  /\ pollTick openChat None closure ledger st = st
  /\ fetchUsernames None fetchProfileByAddress (chats st) usernameCache = usernameCache
  /\ sendMessage None chatId message now_hash now_sent outcome ledger st
     = (None, setChatError (Some "Account not connected") st)
  /\ startChat None otherUserAddress outcome created ledger st
     = (None, setChatError (Some "Account not connected") st)
  /\ messages (setChatError (Some "Account not connected") st) = messages st.
Proof. repeat split. by destruct openChat. Qed.

(** X27. A poll tick between the optimistic append and the end of the send
    takes the optimistic message away again when the ledger does not have
    it yet: fetched messages as many as were held before the send replace
    the held list, which then no longer ends with the optimistic entry. *)
Theorem poll_drops_optimistic_message (address message : string)
    (now_hash now_sent : Z) (st : State) (fetched : list (obj Message.t)) :
  length fetched = length (messages st) ->
  let st' := sendMessage_begin address message now_hash now_sent st in
  messages (pollMessages (messages st') fetched st') = fetched
  /\ length (messages (pollMessages (messages st') fetched st'))
     = length (messages st).
Proof.
  intros Hlen st'.
  assert (Hm : messages (pollMessages (messages st') fetched st') = fetched).
  { rewrite pollMessages_messages, poll_replaces. unfold replaces.
    assert (Hneq : (length fetched =? length (messages st'))%nat = false).
    { apply Nat.eqb_neq. subst st'. unfold sendMessage_begin.
      cbn [messages setMessages]. rewrite length_app. simpl.
      cbn [messages allocated setChatError setIsSendingMessage]. lia. }
    by rewrite Hneq. }
  split; [done|]. by rewrite Hm.
Qed.

Lemma poll_drops_optimistic_message_sample :
  messages
    (pollMessages
       (messages (sendMessage_begin Sample.me "hi" 1 2
                    (Sample.state [] [Obj 0 (Sample.message Sample.peer "1" true)])))
       [Obj 7 (Sample.message Sample.peer "1" true)]
       (sendMessage_begin Sample.me "hi" 1 2
          (Sample.state [] [Obj 0 (Sample.message Sample.peer "1" true)])))
  = [Obj 7 (Sample.message Sample.peer "1" true)].
Proof.
  apply (poll_drops_optimistic_message Sample.me "hi" 1 2
           (Sample.state [] [Obj 0 (Sample.message Sample.peer "1" true)])
           [Obj 7 (Sample.message Sample.peer "1" true)]).
  reflexivity.
Defined.

Lemma unreadCount_zero_iff_sample :
  ChatWithMetadata.unreadCount
    (toMetadata Sample.me
       {| ChatObject.id := "0xa";
          ChatObject.participant_1 := Sample.me;
          ChatObject.participant_2 := Sample.peer;
          ChatObject.messages :=
            [Sample.message Sample.peer "10" true; Sample.message Sample.me "20" false];
          ChatObject.created_at := Num 1 |})
  = 0.
Proof.
  apply (proj2 (unreadCount_zero_iff Sample.me _)).
  intros m Hm. cbn [ChatObject.messages] in Hm.
  apply elem_of_cons in Hm as [->|Hm]; [by right|].
  apply list_elem_of_singleton in Hm as ->. by left.
Defined.
